(** * Hermes: the worker's execution engine, its store, the Slack executor
      and the webhook ingestion handler, embedded from the Go sources.

    Go strings and byte slices are byte sequences: [string].  Go [int]s are
    [Z] (no arithmetic here comes near the 64-bit range).  A Go [error] is
    a message with an optional chain of wrapped causes.  Everything the
    program does to the outside (HTTP calls, SQL statements, sleeps, log
    lines, acknowledgements) is appended to a trace, in program order. *)

From stdpp Require Import gmap strings list sorting pretty.
From Stdlib Require Import ZArith Lia.

Local Open Scope Z_scope.
Local Open Scope string_scope.
Local Open Scope list_scope.

(** ** Go runtime values used by the sources *)

(** [errors.New(msg)] (also [fmt.Errorf] without [%w]) and
    [fmt.Errorf(prefix + "%w", cause)]. *)
Inductive error : Type :=
| errors_New (msg : string)
| Errorf_w (prefix : string) (cause : error).

(** The [Error()] method. *)
Fixpoint Error (e : error) : string :=
  match e with
  | errors_New msg => msg
  | Errorf_w prefix cause => prefix +:+ Error cause
  end.

(** [errors.Is(e, target)] restricted to comparable targets: [e] or one of
    the errors it wraps is [target]. *)
Fixpoint errors_Is (e target : error) : Prop :=
  e = target \/
  match e with
  | errors_New _ => False
  | Errorf_w _ cause => errors_Is cause target
  end.

(** The verb [%d] applied to an [int]. *)
Definition itoa (n : Z) : string := pretty n.

(** [strings.Contains(s, sub)]. *)
Fixpoint has_prefix (s p : string) : bool :=
  match p, s with
  | EmptyString, _ => true
  | String a p', String b s' => if decide (a = b) then has_prefix s' p' else false
  | String _ _, EmptyString => false
  end.

Fixpoint strings_Contains (s sub : string) : bool :=
  has_prefix s sub ||
  match s with
  | EmptyString => false
  | String _ s' => strings_Contains s' sub
  end.

(** What [encoding/json] decodes into an [any]. *)
#[local] Unset Elimination Schemes.
Inductive any : Type :=
| VNil
| VBool (b : bool)
| VNumber (literal : string)
| VString (s : string)
| VArray (items : list any)
| VObject (fields : list (string * any)).
#[local] Set Elimination Schemes.

(** [map[string]any]. *)
Abbreviation map_string_any := (gmap string any).

(** The comma-ok type assertion [v, _ := m[key].(string)]: the zero value
    when the key is absent or holds something that is not a string. *)
Definition string_at (m : map_string_any) (key : string) : string :=
  match m !! key with
  | Some (VString s) => s
  | _ => ""
  end.

(** [context.Context] values, by the way they were derived. *)
Inductive Context : Type :=
| Background
| WithCancel (parent : Context)
| WithTimeout (parent : Context) (d : Z).

(** [time.Duration] is a count of nanoseconds. *)
Definition Millisecond : Z := 1000000.
Definition Second : Z := 1000 * Millisecond.

Definition newline : string := String (Ascii.ascii_of_nat 10) EmptyString.
Definition dquote : string := String (Ascii.ascii_of_nat 34) EmptyString.

(** ** package slack *)
Module slack.

(** The result of [client.Do]: a transport error, or a response of which
    only the status code is read. *)
Inductive HttpResult : Type :=
| DoErr (e : error)
| Response (StatusCode : Z).

Inductive Event : Type :=
| Post (ctx : Context) (url : string) (contentType : string)
       (bodyMap : map_string_any) (clientTimeout : Z)
| Sleep (d : Z).

(** The network as the executor sees it: what [http.NewRequestWithContext]
    says of a URL, what the n-th call of [client.Do] returns, how many calls
    were made, and the requests and sleeps so far.  The request body is
    recorded as the map handed to [json.Marshal] (which cannot fail on a map
    with one string value). *)
Record World : Type := mkWorld {
  NewRequest_err : string -> option error;
  Do_result : nat -> HttpResult;
  n_Do : nat;
  events : list Event
}.

Record Sender : Type := mkSender { client_Timeout : Z }.

Definition New : Sender := {| client_Timeout := 5 * Second |}.

Definition emit (e : Event) (w : World) : World :=
  {| NewRequest_err := NewRequest_err w; Do_result := Do_result w;
     n_Do := n_Do w; events := events w ++ [e] |}.

Definition client_Do (s : Sender) (ctx : Context) (url : string) (body : map_string_any)
    (w : World) : HttpResult * World :=
  (Do_result w (n_Do w),
   {| NewRequest_err := NewRequest_err w; Do_result := Do_result w;
      n_Do := S (n_Do w);
      events := events w ++ [Post ctx url "application/json" body (client_Timeout s)] |}).

(** The message text: the template when there is one, the payload in a
    fenced block otherwise. *)
Definition message_text (cfg : map_string_any) (payload : string) : string :=
  let template := string_at cfg "message_template" in
  if decide (template = "") then
    "Payload:" +:+ newline +:+ "```json" +:+ newline +:+ payload +:+ newline +:+ "```"
  else template.

(** The body of [for attempt := range 3], over the attempts still to make. *)
Fixpoint send_loop (s : Sender) (ctx : Context) (webhookURL : string)
    (bodyMap : map_string_any) (attempts : list Z) (lastErr : option error)
    (w : World) : option error * World :=
  match attempts with
  | [] =>
      (Some match lastErr with
            | Some e => Errorf_w "slack send failed after retries: " e
            | None => errors_New "slack send failed after retries: %!w(<nil>)"
            end, w)
  | attempt :: rest =>
      match NewRequest_err w webhookURL with
      | Some reqErr => (Some (Errorf_w "build request: " reqErr), w)
      | None =>
          let '(resp, w1) := client_Do s ctx webhookURL bodyMap w in
          let backoff := emit (Sleep (200 * (attempt + 1) * Millisecond)) in
          match resp with
          | DoErr doErr => send_loop s ctx webhookURL bodyMap rest (Some doErr) (backoff w1)
          | Response code =>
              if decide (code = 429 \/ code >= 500) then
                send_loop s ctx webhookURL bodyMap rest
                  (Some (errors_New ("slack returned " +:+ itoa code))) (backoff w1)
              else if decide (code >= 200 /\ code < 300) then (None, w1)
              else (Some (errors_New ("slack returned non-retryable status " +:+ itoa code)), w1)
          end
      end
  end.

Definition Execute (s : Sender) (ctx : Context) (cfg : map_string_any) (payload : string)
    (w : World) : option error * World :=
  let webhookURL := string_at cfg "webhook_url" in
  if decide (webhookURL = "") then
    (Some (errors_New "missing webhook_url in slack action config"), w)
  else
    let bodyMap : map_string_any := {[ "text" := VString (message_text cfg payload) ]} in
    send_loop s ctx webhookURL bodyMap [0; 1; 2] None w.

End slack.

(** ** package store (the worker's execution store) *)
Module store.

Record RelayAction : Type := mkRelayAction {
  OrderIndex : Z;
  ActionType : string;
  Config : map_string_any
}.

(** Rows of [relay_actions] and [execution_logs], with the columns the
    statements touch ([executed_at] is filled by the server's [NOW()]). *)
Record relay_actions_row : Type := mkActionRow {
  a_relay_id : string;
  a_action_type : string;
  a_config : any;
  a_order_index : Z
}.

Record execution_logs_row : Type := mkLogRow {
  l_relay_id : string;
  l_event_id : string;
  l_status : string;
  l_payload : option string;
  l_error_message : option string
}.

(** The tables: [relays] by primary key with its nullable [is_active],
    [relay_actions], the keys of [processed_events], and [execution_logs]
    in insertion order. *)
Record DB : Type := mkDB {
  relays : gmap string (option bool);
  relay_actions : list relay_actions_row;
  processed_events : gset (string * string);
  execution_logs : list execution_logs_row
}.


(** The errors the driver reports to the calls one job makes (lost
    connection, cancelled context, violated constraint, ...): for the
    dedup [Exec], for [Query], for [Scan] of the i-th row, for
    [rows.Err()] and for the log [Exec]. *)
Record Faults : Type := mkFaults {
  RegisterEvent_Exec : option error;
  GetRelayActions_Query : option error;
  GetRelayActions_Scan : nat -> option error;
  GetRelayActions_rows_Err : option error;
  LogExecution_Exec : option error
}.

Definition no_faults : Faults := mkFaults None None (fun _ => None) None None.

Definition ErrRelayNotFound : error := errors_New "relay not found".
Definition ErrNoActions : error := errors_New "no actions configured for relay".

Definition by_order_index (a b : relay_actions_row) : Prop :=
  a_order_index a <= a_order_index b.

#[global] Instance by_order_index_dec a b : Decision (by_order_index a b).
Proof. unfold by_order_index. apply _. Defined.

(** The rows of
    [SELECT ... FROM relays r JOIN relay_actions a ON r.id = a.relay_id
     WHERE r.id = $1 AND r.is_active = true ORDER BY a.order_index ASC]. *)
Definition select_actions (relayID : string) (db : DB) : list relay_actions_row :=
  match relays db !! relayID with
  | Some (Some true) =>
      merge_sort by_order_index
        (filter (fun a => a_relay_id a = relayID) (relay_actions db))
  | _ => []
  end.

(** [json.Unmarshal(configBytes, &act.map_string_any)] into a nil [map[string]any]:
    an object fills the map (a repeated key keeps its last value), [null]
    leaves it nil, anything else is a type error. *)
Definition json_kind (v : any) : string :=
  match v with
  | VNil => "null"
  | VBool _ => "bool"
  | VNumber _ => "number"
  | VString _ => "string"
  | VArray _ => "array"
  | VObject _ => "object"
  end.

Definition Unmarshal_config (v : any) : error + map_string_any :=
  match v with
  | VObject fields => inr (list_to_map (reverse fields))
  | VNil => inr ∅
  | _ => inl (errors_New ("json: cannot unmarshal " +:+ json_kind v +:+
                          " into Go value of type map[string]interface {}"))
  end.

(** The [for rows.Next()] loop; [i] counts the rows already read. *)
Fixpoint scan_rows (f : Faults) (i : nat) (rows : list relay_actions_row)
    (actions : list RelayAction) : error + list RelayAction :=
  match rows with
  | [] => inr actions
  | row :: rest =>
      match GetRelayActions_Scan f i with
      | Some err => inl (Errorf_w "scan action: " err)
      | None =>
          match Unmarshal_config (a_config row) with
          | inl err => inl (Errorf_w "parse config: " err)
          | inr cfg =>
              scan_rows f (S i) rest
                (actions ++ [mkRelayAction (a_order_index row) (a_action_type row) cfg])
          end
      end
  end.

Definition GetRelayActions (f : Faults) (ctx : Context) (relayID : string)
    (db : DB) : error + list RelayAction :=
  match GetRelayActions_Query f with
  | Some err => inl (Errorf_w "db error: " err)
  | None =>
      match scan_rows f 0 (select_actions relayID db) [] with
      | inl err => inl err
      | inr actions =>
          match GetRelayActions_rows_Err f with
          | Some err => inl (Errorf_w "rows error: " err)
          | None =>
              if decide (length actions = 0%nat) then inl ErrNoActions
              else inr actions
          end
      end
  end.

(** [INSERT INTO processed_events ... ON CONFLICT DO NOTHING]; the boolean
    is [tag.RowsAffected() > 0]. *)
Definition RegisterEvent (f : Faults) (ctx : Context) (relayID eventID : string)
    (db : DB) : (bool * option error) * DB :=
  if decide (eventID = "") then ((true, None), db)
  else
    match RegisterEvent_Exec f with
    | Some err => ((false, Some (Errorf_w "dedupe insert failed: " err)), db)
    | None =>
        if decide ((relayID, eventID) ∈ processed_events db) then ((false, None), db)
        else ((true, None),
              {| relays := relays db; relay_actions := relay_actions db;
                 processed_events := {[ (relayID, eventID) ]} ∪ processed_events db;
                 execution_logs := execution_logs db |})
    end.

(** [INSERT INTO execution_logs(relay_id, event_id, status, payload,
    error_message, executed_at) VALUES($1,$2,$3,$4,$5,NOW())]. *)
Definition LogExecution (f : Faults) (ctx : Context)
    (relayID eventID status details payload : string) (db : DB) : option error * DB :=
  let payloadJSON := if decide (0 < String.length payload)%nat then Some payload else None in
  let errorMessage :=
    if decide (status <> "success" /\ details <> "") then Some details else None in
  match LogExecution_Exec f with
  | Some err => (Some (Errorf_w "failed to write execution log: " err), db)
  | None =>
      (None,
       {| relays := relays db; relay_actions := relay_actions db;
          processed_events := processed_events db;
          execution_logs :=
            execution_logs db ++ [mkLogRow relayID eventID status payloadJSON errorMessage] |})
  end.

End store.

(** ** structured logging ([log/slog]) *)
Inductive Level : Type := LevelDebug | LevelInfo | LevelWarn | LevelError.

(** A log record: level, message and attributes rendered as text
    ([slog.Int] through [%d]; [slog.Duration] attributes, which read the
    clock, are left out). *)
Record LogRecord : Type := mkLogRecord {
  log_level : Level;
  log_msg : string;
  log_attrs : list (string * string)
}.

(** ** package engine (the worker pool) *)
Module engine.

Record Job : Type := mkJob {
  RelayID : string;
  EventID : string;
  Payload : string
}.

(** What one worker does to its collaborators, in program order.  A store
    call is recorded with its arguments in the order of the callee's
    parameters; [MsgAck] is the job's acknowledge callback. *)
Inductive Event : Type :=
| Slog (r : LogRecord)
| Store_RegisterEvent (ctx : Context) (relayID eventID : string)
| Store_GetRelayActions (ctx : Context) (relayID : string)
| Store_LogExecution (ctx : Context) (relayID eventID status details payload : string)
| Registry_Get (actionType : string)
| Executor_Execute (ctx : Context) (act : store.RelayAction) (payload : string)
| Cancel (ctx : Context)
| MsgAck (ok : bool).

Section WithExecutors.

(** The state of whatever the executors talk to. *)
Context {E : Type}.

(** The [Executor] interface: [Execute(ctx, cfg, payload) error]. *)
Definition Executor : Type :=
  Context -> map_string_any -> string -> E -> option error * E.

(** [Registry.Get] is called here and defined elsewhere: a registry is the
    function from an action type to its executor or an error. *)
Definition Registry : Type := string -> error + Executor.

Record World : Type := mkWorld {
  db : store.DB;
  ext : E;
  trace : list Event
}.

Definition emit (e : Event) (w : World) : World :=
  {| db := db w; ext := ext w; trace := trace w ++ [e] |}.

Definition slog (logger : list (string * string)) (l : Level) (msg : string)
    (attrs : list (string * string)) (w : World) : World :=
  emit (Slog (mkLogRecord l msg (logger ++ attrs))) w.

Variable reg : Registry.
Variable faults : store.Faults.

(** [for _, act := range actions] in [process]. *)
Fixpoint run_actions (ctx : Context) (job : Job) (logger : list (string * string))
    (actions : list store.RelayAction) (w : World) : option error * World :=
  match actions with
  | [] => (None, w)
  | act :: rest =>
      let w1 :=
        slog logger LevelDebug "executing action"
          [("action_type", store.ActionType act);
           ("order_index", itoa (store.OrderIndex act));
           ("event_id", EventID job)] w in
      let w2 := emit (Registry_Get (store.ActionType act)) w1 in
      match reg (store.ActionType act) with
      | inl pluginErr => (Some pluginErr, w2)
      | inr executor =>
          let w3 := emit (Executor_Execute ctx act (Payload job)) w2 in
          let '(execErr, ext') := executor ctx (store.Config act) (Payload job) (ext w3) in
          let w4 := {| db := db w3; ext := ext'; trace := trace w3 |} in
          match execErr with
          | Some e =>
              (Some (Errorf_w ("action " +:+ store.ActionType act +:+ " (order " +:+
                               itoa (store.OrderIndex act) +:+ ") failed: ") e), w4)
          | None => run_actions ctx job logger rest w4
          end
      end
  end.

(** The part of [process] after the [defer] statement. *)
Definition fetch_and_run (ctx : Context) (job : Job) (logger : list (string * string))
    (w : World) : option error * World :=
  let w1 := emit (Store_GetRelayActions ctx (RelayID job)) w in
  match store.GetRelayActions faults ctx (RelayID job) (db w1) with
  | inl fetchErr => (Some fetchErr, w1)
  | inr actions => run_actions ctx job logger actions w1
  end.

(** The deferred function, run with the value [err] has when [process]
    returns. *)
Definition deferred_log (job : Job) (logger : list (string * string))
    (err : option error) (w : World) : World :=
  let logCtx := WithTimeout Background (3 * Second) in
  let status := match err with Some _ => "failed" | None => "success" end in
  let details :=
    match err with Some e => Error e | None => "Relay executed successfully" end in
  let w1 :=
    emit (Store_LogExecution logCtx (RelayID job) status details (EventID job) (Payload job)) w in
  let '(logErr, db') :=
    store.LogExecution faults logCtx (RelayID job) status details (EventID job)
      (Payload job) (db w1) in
  let w2 := {| db := db'; ext := ext w1; trace := trace w1 |} in
  let w3 :=
    match logErr with
    | Some e => slog logger LevelError "failed to save execution log" [("error", Error e)] w2
    | None => w2
    end in
  emit (Cancel logCtx) w3.

Definition with_deferred_log (ctx : Context) (job : Job) (logger : list (string * string))
    (w : World) : option error * World :=
  let '(err, w1) := fetch_and_run ctx job logger w in
  (err, deferred_log job logger err w1).

Definition process (ctx : Context) (job : Job) (logger : list (string * string))
    (w : World) : option error * World :=
  if decide (EventID job <> "") then
    let w1 := emit (Store_RegisterEvent ctx (RelayID job) (EventID job)) w in
    let '((isNew, dedupeErr), db') :=
      store.RegisterEvent faults ctx (RelayID job) (EventID job) (db w1) in
    let w2 := {| db := db'; ext := ext w1; trace := trace w1 |} in
    match dedupeErr with
    | Some e => (Some e, w2)
    | None =>
        if isNew then with_deferred_log ctx job logger w2
        else
          (None,
           slog logger LevelInfo "duplicate event skipped"
             [("relay_id", RelayID job); ("event_id", EventID job)] w2)
    end
  else with_deferred_log ctx job logger w.

(** What [worker] does with one job received from the queue; [ctx] is the
    pool's own context [wp.ctx] and [id] the worker's number. *)
Definition worker_job (ctx : Context) (id : Z) (job : Job) (w : World) : World :=
  let workerLogger := [("worker_id", itoa id)] in
  let w1 :=
    slog workerLogger LevelInfo "processing relay"
      [("relay_id", RelayID job); ("event_id", EventID job)] w in
  let '(err, w2) := process ctx job workerLogger w1 in
  match err with
  | Some e =>
      emit (MsgAck false)
        (slog workerLogger LevelError "relay execution failed"
           [("relay_id", RelayID job); ("event_id", EventID job); ("error", Error e)] w2)
  | None =>
      emit (MsgAck true)
        (slog workerLogger LevelInfo "relay execution succeeded"
           [("relay_id", RelayID job); ("event_id", EventID job)] w2)
  end.

End WithExecutors.

Arguments World : clear implicits.
Arguments Registry : clear implicits.
Arguments Executor : clear implicits.

(** Projections of a trace. *)
Definition executed (t : list Event) : list store.RelayAction :=
  omap (fun e => match e with Executor_Execute _ act _ => Some act | _ => None end) t.

Definition log_calls (t : list Event) : list (Context * (string * string * string * string * string)) :=
  omap (fun e => match e with
                 | Store_LogExecution ctx relayID eventID status details payload =>
                     Some (ctx, (relayID, eventID, status, details, payload))
                 | _ => None
                 end) t.

Definition fetch_calls (t : list Event) : list string :=
  omap (fun e => match e with Store_GetRelayActions _ relayID => Some relayID | _ => None end) t.

Definition acks (t : list Event) : list bool :=
  omap (fun e => match e with MsgAck b => Some b | _ => None end) t.

(** What the [select] of one worker yields, iteration after iteration: the
    pool's context is done, the queue delivers a job (given with the
    storage errors the driver reports while that job is processed), or the
    queue is closed and empty. *)
Inductive Selected : Type :=
| CtxDone
| Received (job : Job) (f : store.Faults)
| QueueClosed.

(** The [for { select { ... } }] of [worker] over what its [select] yields.
    The boolean tells whether the worker returned (and so ran its deferred
    [wg.Done()]); it has not when it still waits in [select]. *)
Fixpoint worker_loop {E : Type} (reg : Registry E) (ctx : Context) (id : Z)
    (selected : list Selected) (w : World E) : bool * World E :=
  match selected with
  | [] => (false, w)
  | CtxDone :: _ =>
      (true, slog [("worker_id", itoa id)] LevelInfo "worker shutting down" [] w)
  | QueueClosed :: _ =>
      (true, slog [("worker_id", itoa id)] LevelInfo "job queue closed, worker exiting" [] w)
  | Received job f :: rest => worker_loop reg ctx id rest (worker_job reg f ctx id job w)
  end.

(** [worker]: [ctx] is the pool's context [wp.ctx]; the context it is
    started with is not used. *)
Definition worker {E : Type} (reg : Registry E) (ctx : Context) (id : Z)
    (selected : list Selected) (w : World E) : bool * World E :=
  worker_loop reg ctx id selected
    (slog [("worker_id", itoa id)] LevelDebug "worker started" [] w).

End engine.

(** ** package api of the webhook ingestion service *)
Module api.

Record ExecutionEvent : Type := mkExecutionEvent {
  EventID : string;
  RelayID : string;
  Payload : string;
  ReceivedAt : Z
}.

(** The [EventProducer] interface: [Publish(relayID, event) error]. *)
Definition EventProducer : Type := string -> ExecutionEvent -> option error.

(** An [io.Reader], as one pass of [Read] calls over it goes: the bytes it
    delivers and how it ends, with [io.EOF] ([failure] is [None]) or with
    an error.  [io.Reader] lets a reader return that error from the call
    that delivers its last bytes or from the call after it;
    [failure_with_data] says which. *)
Record Reader : Type := mkReader {
  data : string;
  failure : option error;
  failure_with_data : bool
}.

(** The parts of [*http.Request] the handler reads: the route parameters
    [chi.URLParam] looks into, the path, the body, the header under
    canonical keys and the parsed query. *)
Record Request : Type := mkRequest {
  URLParams : gmap string string;
  URL_Path : string;
  Body : Reader;
  Header : gmap string (list string);
  URL_Query : gmap string (list string)
}.

Record Response : Type := mkResponse {
  StatusCode : Z;
  ContentType : string;
  ResponseBody : string
}.

(** What the handler did: the calls of [Publish], the response, the log. *)
Record Outcome : Type := mkOutcome {
  published : list (string * ExecutionEvent);
  response : Response;
  logged : list LogRecord
}.

Definition chi_URLParam (r : Request) (key : string) : string :=
  default "" (URLParams r !! key).

(** [Header.Get] and [url.Values.Get]: the first value under the key. *)
Definition first_value (m : gmap string (list string)) (key : string) : string :=
  match m !! key with
  | Some (v :: _) => v
  | _ => ""
  end.

(** The first [n] bytes of [s], all of [s] when it has no more. *)
Fixpoint limit_bytes (s : string) (n : N) : string :=
  match s with
  | EmptyString => EmptyString
  | String c s' => if decide (n = 0%N) then EmptyString else String c (limit_bytes s' (N.pred n))
  end.

(** [io.LimitReader(r, n)]: its [Read] answers [io.EOF] without calling
    [r] once [n] bytes went through, and before that asks [r] for no more
    than the bytes still allowed, passing on what [r] returns.  So it
    delivers the first [n] bytes of [r], and ends in the error of [r] only
    if [r] returns that error while bytes are still allowed: [r] has fewer
    than [n] bytes, or exactly [n] (and [n] is not 0) and returns the
    error together with the last of them. *)
Definition LimitReader (r : Reader) (n : N) : Reader :=
  let len := N.of_nat (String.length (data r)) in
  mkReader (limit_bytes (data r) n)
    (if decide (len < n)%N then failure r
     else if decide (len = n /\ (0 < n)%N) then
       (if failure_with_data r then failure r else None)
     else None)
    (failure_with_data r).

(** [io.ReadAll(r)]: everything [r] delivers, and the error it ends in,
    [io.EOF] being no error. *)
Definition ReadAll (r : Reader) : string * option error :=
  (data r, failure r).

(** [uuid.New().String()] of github.com/google/uuid over the 16 random
    bytes it reads: version and variant bits set, then lower-case hex in
    groups of 4, 2, 2, 2 and 6 bytes. *)
Definition hex_digit (n : Z) : string :=
  match String.get (Z.to_nat n) "0123456789abcdef" with
  | Some c => String c EmptyString
  | None => "0"
  end.

Definition hex_byte (b : Z) : string :=
  hex_digit ((b `mod` 256) `div` 16) +:+ hex_digit (b `mod` 16).

Definition uuid_New (random : nat -> Z) : nat -> Z :=
  fun i =>
    if decide (i = 6%nat) then Z.lor (Z.land (random i `mod` 256) 15) 64
    else if decide (i = 8%nat) then Z.lor (Z.land (random i `mod` 256) 63) 128
    else random i `mod` 256.

Definition hex_bytes (u : nat -> Z) (from : nat) (count : nat) : string :=
  foldr (fun i acc => hex_byte (u i) +:+ acc) EmptyString (seq from count).

Definition uuid_String (u : nat -> Z) : string :=
  hex_bytes u 0 4 +:+ "-" +:+ hex_bytes u 4 2 +:+ "-" +:+ hex_bytes u 6 2 +:+ "-" +:+
  hex_bytes u 8 2 +:+ "-" +:+ hex_bytes u 10 6.

(** [http.Error(w, msg, code)]. *)
Definition http_Error (msg : string) (code : Z) : Response :=
  mkResponse code "text/plain; charset=utf-8" (msg +:+ newline).

(** The event id the handler gives an accepted request.  [Header.Get]
    looks its key up in canonical form, which for [X-Event-ID] is
    [X-Event-Id]. *)
Definition event_id_of (random : nat -> Z) (r : Request) : string :=
  let eventID := first_value (Header r) "X-Event-Id" in
  let eventID := if decide (eventID = "") then first_value (URL_Query r) "event_id" else eventID in
  if decide (eventID = "") then uuid_String (uuid_New random) else eventID.

(** [HandleWebhook], given the producer, the bytes the random source
    yields and the clock. *)
Definition HandleWebhook (producer : EventProducer) (random : nat -> Z) (now : Z)
    (r : Request) : Outcome :=
  let relayID := chi_URLParam r "relayID" in
  if decide (relayID = "") then
    mkOutcome []
      (http_Error "Relay ID is required" 400)
      [mkLogRecord LevelWarn "webhook request missing relay ID" [("path", URL_Path r)]]
  else
    match ReadAll (LimitReader (Body r) 1048576) with
    | (_, Some err) =>
        mkOutcome []
          (http_Error "Failed to read body" 500)
          [mkLogRecord LevelError "failed to read request body"
             [("relay_id", relayID); ("error", Error err)]]
    | (body, None) =>
        let eventID := event_id_of random r in
        let received :=
          mkLogRecord LevelDebug "webhook received"
            [("relay_id", relayID);
             ("payload_size", itoa (Z.of_nat (String.length body)));
             ("content_type", first_value (Header r) "Content-Type")] in
        let event := mkExecutionEvent eventID relayID body now in
        match producer relayID event with
        | Some err =>
            mkOutcome [(relayID, event)]
              (http_Error "Internal Server Error" 500)
              [received;
               mkLogRecord LevelError "failed to publish event"
                 [("relay_id", relayID); ("error", Error err)]]
        | None =>
            mkOutcome [(relayID, event)]
              (mkResponse 200 "application/json"
                 ("{" +:+ dquote +:+ "status" +:+ dquote +:+ ":" +:+ dquote +:+ "queued" +:+
                  dquote +:+ ", " +:+ dquote +:+ "event_id" +:+ dquote +:+ ":" +:+ dquote +:+
                  eventID +:+ dquote +:+ "}"))
              [received;
               mkLogRecord LevelInfo "webhook queued successfully"
                 [("relay_id", relayID); ("event_id", eventID)]]
        end
    end.

End api.

(** ** Vocabulary of the statements *)

(** An attempt the Slack executor repeats: a transport error, 429, or a
    status of 500 and above; and the error it keeps from such an attempt. *)
Definition retryable (r : slack.HttpResult) : Prop :=
  match r with
  | slack.DoErr _ => True
  | slack.Response code => code = 429 \/ code >= 500
  end.

Definition failure_of (r : slack.HttpResult) : error :=
  match r with
  | slack.DoErr e => e
  | slack.Response code => errors_New ("slack returned " +:+ itoa code)
  end.

(** The request one call of [Execute] sends, and the events of [k] failed
    attempts: each a request followed by a sleep of 200ms times its number. *)
Definition slack_post (s : slack.Sender) (ctx : Context) (cfg : map_string_any)
    (payload : string) : slack.Event :=
  slack.Post ctx (string_at cfg "webhook_url") "application/json"
    {[ "text" := VString (slack.message_text cfg payload) ]} (slack.client_Timeout s).

Definition failed_attempts (post : slack.Event) (k : nat) : list slack.Event :=
  flat_map (fun i => [post; slack.Sleep (200 * (Z.of_nat i + 1) * Millisecond)]) (seq 0 k).

Definition posts (evs : list slack.Event) : list slack.Event :=
  omap (fun e => match e with slack.Post _ _ _ _ _ => Some e | _ => None end) evs.

Definition sleeps (evs : list slack.Event) : list Z :=
  omap (fun e => match e with slack.Sleep d => Some d | _ => None end) evs.

(** The texts of the requests in a list of events. *)
Definition posted_texts (evs : list slack.Event) : list (option any) :=
  omap (fun e => match e with
                 | slack.Post _ _ _ body _ => Some (body !! "text")
                 | _ => None
                 end) evs.

Definition rendered_payload (payload : string) : string :=
  "Payload:" +:+ newline +:+ "```json" +:+ newline +:+ payload +:+ newline +:+ "```".

(** The network after one repeated attempt numbered [attempt]. *)
Definition after_retry (post : slack.Event) (attempt : Z) (w : slack.World) : slack.World :=
  slack.mkWorld (slack.NewRequest_err w) (slack.Do_result w) (S (slack.n_Do w))
    (slack.events w ++ [post; slack.Sleep (200 * (attempt + 1) * Millisecond)]).

(** The network after the attempt that ends the loop. *)
Definition after_last (post : slack.Event) (w : slack.World) : slack.World :=
  slack.mkWorld (slack.NewRequest_err w) (slack.Do_result w) (S (slack.n_Do w))
    (slack.events w ++ [post]).

(** The events a world [w'] has after those of [w]. *)
Definition since {E : Type} (w w' : engine.World E) : list engine.Event :=
  drop (length (engine.trace w)) (engine.trace w').

(** The job gets past the dedup stage: its event id is empty, or the
    insert of its marker succeeds and finds no marker. *)
Definition passes_dedup (f : store.Faults) (job : engine.Job) (d : store.DB) : Prop :=
  engine.EventID job = "" \/
  (store.RegisterEvent_Exec f = None /\
   (engine.RelayID job, engine.EventID job) ∉ store.processed_events d).

(** The world after the dedup stage of such a job. *)
Definition after_dedup {E : Type} (ctx : Context) (job : engine.Job)
    (w : engine.World E) : engine.World E :=
  if decide (engine.EventID job = "") then w
  else
    engine.mkWorld
      (store.mkDB (store.relays (engine.db w)) (store.relay_actions (engine.db w))
         ({[ (engine.RelayID job, engine.EventID job) ]} ∪ store.processed_events (engine.db w))
         (store.execution_logs (engine.db w)))
      (engine.ext w)
      (engine.trace w ++
         [engine.Store_RegisterEvent ctx (engine.RelayID job) (engine.EventID job)]).

(** Running the executors of [actions] one after the other from the state
    [e]: the state reached when every type resolves and every executor
    returns nil. *)
Fixpoint chain_succeeds {E : Type} (reg : engine.Registry E) (ctx : Context)
    (payload : string) (actions : list store.RelayAction) (e : E) : option E :=
  match actions with
  | [] => Some e
  | act :: rest =>
      match reg (store.ActionType act) with
      | inl _ => None
      | inr executor =>
          match executor ctx (store.Config act) payload e with
          | (None, e') => chain_succeeds reg ctx payload rest e'
          | (Some _, _) => None
          end
      end
  end.

(** The events of the executor loop: log lines, look-ups, invocations. *)
Definition chain_event (e : engine.Event) : Prop :=
  match e with
  | engine.Slog _ | engine.Registry_Get _ | engine.Executor_Execute _ _ _ => True
  | _ => False
  end.

(** The faults of a job with the outcome of the log write replaced. *)
Definition with_log_fault (f : store.Faults) (logErr : option error) : store.Faults :=
  store.mkFaults (store.RegisterEvent_Exec f) (store.GetRelayActions_Query f)
    (store.GetRelayActions_Scan f) (store.GetRelayActions_rows_Err f) logErr.

(** The logger of worker [id], and its first line for a job. *)
Definition worker_logger (id : Z) : list (string * string) := [("worker_id", itoa id)].

Definition job_received {E : Type} (id : Z) (job : engine.Job)
    (w : engine.World E) : engine.World E :=
  engine.slog (worker_logger id) LevelInfo "processing relay"
    [("relay_id", engine.RelayID job); ("event_id", engine.EventID job)] w.

(** The context of the audit write. *)
Definition logCtx : Context := WithTimeout Background (3 * Second).

(** The audit write of a job that ended with [err]: the call, as the
    engine makes it, and the events of the deferred function around it. *)
Definition audit_call (job : engine.Job) (err : option error) : engine.Event :=
  engine.Store_LogExecution logCtx (engine.RelayID job)
    (match err with Some _ => "failed" | None => "success" end)
    (match err with Some e => Error e | None => "Relay executed successfully" end)
    (engine.EventID job) (engine.Payload job).

Definition audit_events (f : store.Faults) (job : engine.Job)
    (logger : list (string * string)) (err : option error) : list engine.Event :=
  audit_call job err ::
  match store.LogExecution_Exec f with
  | Some e =>
      [engine.Slog (mkLogRecord LevelError "failed to save execution log"
                      (logger ++ [("error", Error (Errorf_w "failed to write execution log: " e))]))]
  | None => []
  end ++ [engine.Cancel logCtx].

(** The database after that write. *)
Definition audit_db (f : store.Faults) (job : engine.Job) (err : option error)
    (d : store.DB) : store.DB :=
  snd (store.LogExecution f logCtx (engine.RelayID job)
         (match err with Some _ => "failed" | None => "success" end)
         (match err with Some e => Error e | None => "Relay executed successfully" end)
         (engine.EventID job) (engine.Payload job) d).

(** The last line and the acknowledgement of worker [id] for a job that
    ended with [err]. *)
Definition job_finished {E : Type} (id : Z) (job : engine.Job) (err : option error)
    (w : engine.World E) : engine.World E :=
  match err with
  | Some e =>
      engine.emit (engine.MsgAck false)
        (engine.slog (worker_logger id) LevelError "relay execution failed"
           [("relay_id", engine.RelayID job); ("event_id", engine.EventID job);
            ("error", Error e)] w)
  | None =>
      engine.emit (engine.MsgAck true)
        (engine.slog (worker_logger id) LevelInfo "relay execution succeeded"
           [("relay_id", engine.RelayID job); ("event_id", engine.EventID job)] w)
  end.

(** The acknowledgement a job that ended with [err] gets. *)
Definition ack_of (err : option error) : bool :=
  match err with Some _ => false | None => true end.

(** The events of the dedup stage of a job that gets past it. *)
Definition dedup_events (ctx : Context) (job : engine.Job) : list engine.Event :=
  if decide (engine.EventID job = "") then []
  else [engine.Store_RegisterEvent ctx (engine.RelayID job) (engine.EventID job)].

(** The jobs a worker gets before its [select] first yields a done context
    or a closed queue, and whether it yields one at all. *)
Fixpoint taken (selected : list engine.Selected) : list (engine.Job * store.Faults) :=
  match selected with
  | engine.Received job f :: rest => (job, f) :: taken rest
  | _ => []
  end.

Fixpoint stopped (selected : list engine.Selected) : bool :=
  match selected with
  | [] => false
  | engine.Received _ _ :: rest => stopped rest
  | _ => true
  end.

(** The sum of a list of durations. *)
Definition total (ds : list Z) : Z := foldr Z.add 0 ds.

(** The marker of a job in [processed_events]. *)
Definition marker (job : engine.Job) : string * string :=
  (engine.RelayID job, engine.EventID job).

(** The calls of [RegisterEvent] in a trace. *)
Definition register_calls (t : list engine.Event) : list (string * string) :=
  omap (fun e => match e with
                 | engine.Store_RegisterEvent _ relayID eventID => Some (relayID, eventID)
                 | _ => None
                 end) t.

(** The contexts and payloads the executors were invoked with. *)
Definition execute_args (t : list engine.Event) : list (Context * string) :=
  omap (fun e => match e with
                 | engine.Executor_Execute ctx _ payload => Some (ctx, payload)
                 | _ => None
                 end) t.

(** The action [GetRelayActions] makes of a row whose configuration
    decodes to [cfg]. *)
Definition action_of_row (row : store.relay_actions_row) (cfg : map_string_any)
    : store.RelayAction :=
  store.mkRelayAction (store.a_order_index row) (store.a_action_type row) cfg.

(** A row and the action fetched from it. *)
Definition fetched_from (act : store.RelayAction) (row : store.relay_actions_row) : Prop :=
  store.OrderIndex act = store.a_order_index row /\
  store.ActionType act = store.a_action_type row /\
  store.Unmarshal_config (store.a_config row) = inr (store.Config act).

(** An event that belongs to the processing of [job] under [ctx]: a store
    call or an invocation made under [ctx] for the job's relay id, event id
    and payload, the audit write and its cancel under the audit context,
    or a log line. *)
Definition job_event (ctx : Context) (job : engine.Job) (e : engine.Event) : Prop :=
  match e with
  | engine.Slog _ => True
  | engine.Store_RegisterEvent c relayID eventID =>
      c = ctx /\ relayID = engine.RelayID job /\ eventID = engine.EventID job
  | engine.Store_GetRelayActions c relayID => c = ctx /\ relayID = engine.RelayID job
  | engine.Store_LogExecution c relayID _ _ _ payload =>
      c = logCtx /\ relayID = engine.RelayID job /\ payload = engine.Payload job
  | engine.Registry_Get _ => True
  | engine.Executor_Execute c _ payload => c = ctx /\ payload = engine.Payload job
  | engine.Cancel c => c = logCtx
  | engine.MsgAck _ => True
  end.

(** The world of worker [id] once it has logged its start, the world after
    it has processed its jobs in turn, and the line it logs when it
    returns. *)
Definition worker_started {E : Type} (id : Z) (w : engine.World E) : engine.World E :=
  engine.slog (worker_logger id) LevelDebug "worker started" [] w.

Definition jobs_done {E : Type} (reg : engine.Registry E) (ctx : Context) (id : Z)
    (jobs : list (engine.Job * store.Faults)) (w : engine.World E) : engine.World E :=
  foldl (fun w0 jf => engine.worker_job reg jf.2 ctx id jf.1 w0) w jobs.

Fixpoint stop_message (selected : list engine.Selected) : option string :=
  match selected with
  | [] => None
  | engine.CtxDone :: _ => Some "worker shutting down"
  | engine.QueueClosed :: _ => Some "job queue closed, worker exiting"
  | engine.Received _ _ :: rest => stop_message rest
  end.

(** ** Inputs used to exercise the statements *)
Module examples.

Definition scripted (rs : list slack.HttpResult) : slack.World :=
  slack.mkWorld (fun _ => None) (fun i => nth i rs (slack.Response 200)) 0 [].

Definition always503 : slack.World :=
  slack.mkWorld (fun _ => None) (fun _ => slack.Response 503) 0 [].

Definition hook_cfg : map_string_any :=
  {[ "webhook_url" := VString "http://mock.local/hook" ]}.

Definition templated_cfg : map_string_any :=
  <[ "message_template" := VString "deploy finished" ]> hook_cfg.

(** The payload [{"x":1}]. *)
Definition payload_x1 : string := "{" +:+ dquote +:+ "x" +:+ dquote +:+ ":1}".

(** Modelled from the spec: the action registry, whose source is not among
    the files.  It is a mapping from action-type name to executor; [Get]
    returns the executor or a not-found error, and there is no fallback. *)
Definition registry_of {E : Type} (m : gmap string (engine.Executor E)) : engine.Registry E :=
  fun actionType =>
    match m !! actionType with
    | Some executor => inr executor
    | None => inl (errors_New ("unknown action type: " +:+ actionType))
    end.

Definition slack_registry : engine.Registry slack.World :=
  registry_of {[ "slack_send" := slack.Execute slack.New ]}.

Definition relay_R : string := "5f0c1d0e-7a54-4c55-9d3e-2b8f0a6c1e11".
Definition other_relay : string := "c2a1b3d4-0000-4e5f-8a9b-112233445566".

Definition slack_row (relay : string) (order : Z) : store.relay_actions_row :=
  store.mkActionRow relay "slack_send"
    (VObject [("webhook_url", VString "http://mock.local/hook")]) order.

(** One active relay with one Slack action. *)
Definition db_one : store.DB :=
  store.mkDB {[ relay_R := Some true ]} [slack_row relay_R 1] ∅ [].

(** One active relay whose three actions sit in the table out of order,
    next to an action of another relay. *)
Definition db_three : store.DB :=
  store.mkDB {[ relay_R := Some true ]}
    [slack_row relay_R 3; slack_row other_relay 1; slack_row relay_R 1; slack_row relay_R 2]
    ∅ [].

(** An active relay without actions and an inactive one with an action. *)
Definition db_empty_relay : store.DB :=
  store.mkDB {[ relay_R := Some true; other_relay := Some false ]}
    [slack_row other_relay 1] ∅ [].

Definition job_E1 : engine.Job := engine.mkJob relay_R "E1" payload_x1.

Definition world_of (d : store.DB) (net : slack.World) : engine.World slack.World :=
  engine.mkWorld d net [].

Definition ok200 : slack.World :=
  slack.mkWorld (fun _ => None) (fun _ => slack.Response 200) 0 [].

(** The active relay with a chain whose second action, at [order], has a
    type no executor is registered for. *)
Definition db_unknown_at (order : Z) : store.DB :=
  store.mkDB {[ relay_R := Some true ]}
    [slack_row relay_R 1; store.mkActionRow relay_R "nope" (VObject []) order;
     slack_row relay_R 9]
    ∅ [].

(** The action the store makes of [slack_row relay order]. *)
Definition slack_action (order : Z) : store.RelayAction :=
  store.mkRelayAction order "slack_send"
    (list_to_map [("webhook_url", VString "http://mock.local/hook")]).

(** The driver refusing the insert of the dedup marker. *)
Definition dedup_down : store.Faults :=
  store.mkFaults (Some (errors_New "connection refused")) None (fun _ => None) None None.

(** A job for the inactive relay of [db_empty_relay]. *)
Definition job_inactive : engine.Job := engine.mkJob other_relay "E7" payload_x1.

(** A network on which no request can be built for any URL. *)
Definition unusable_url : slack.World :=
  slack.mkWorld (fun url => Some (errors_New ("parse " +:+ url +:+ ": invalid URI")))
    (fun _ => slack.Response 200) 0 [].

(** A configuration whose [webhook_url] is a number. *)
Definition numeric_url_cfg : map_string_any := {[ "webhook_url" := VNumber "42" ]}.

(** A job without an event id. *)
Definition job_no_event : engine.Job := engine.mkJob relay_R "" payload_x1.

(** The driver failing the query for the actions. *)
Definition query_down : store.Faults :=
  store.mkFaults None (Some (errors_New "connection reset by peer")) (fun _ => None) None None.

(** An active relay whose second action has an array for configuration. *)
Definition db_bad_config : store.DB :=
  store.mkDB {[ relay_R := Some true ]}
    [slack_row relay_R 1; store.mkActionRow relay_R "slack_send" (VArray []) 2]
    ∅ [].

(** A producer that takes every event, and one that cannot reach the
    broker. *)
Definition accepting : api.EventProducer := fun _ _ => None.

Definition broker_down : api.EventProducer :=
  fun _ _ => Some (errors_New "nats: no servers available").

(** A body that arrives whole, and one whose connection breaks after the
    bytes [s], the reader reporting that from the call after the last
    bytes. *)
Definition whole (s : string) : api.Reader := api.mkReader s None false.

Definition broken_after (s : string) : api.Reader :=
  api.mkReader s (Some (errors_New "unexpected EOF")) false.

(** 1048577 bytes: 2^20 times [a], then [b]. *)
Definition oversized : string := Nat.iter 20 (fun s => s +:+ s) "a" +:+ "b".

(** A request on the route of [relay] with the given body, values of the
    [X-Event-ID] header and values of the [event_id] query parameter. *)
Definition webhook (relay : string) (body : api.Reader) (header query : list string)
    : api.Request :=
  api.mkRequest {[ "relayID" := relay ]} ("/hooks/" +:+ relay) body
    {[ "X-Event-Id" := header; "Content-Type" := ["application/json"] ]}
    {[ "event_id" := query ]}.

End examples.

(** ** The Slack executor *)
Section SlackSender.

Variables (s : slack.Sender) (ctx : Context) (url : string) (body : map_string_any).

Let post : slack.Event := slack.Post ctx url "application/json" body (slack.client_Timeout s).

Lemma send_loop_retry attempt rest lastErr w :
  slack.NewRequest_err w url = None ->
  retryable (slack.Do_result w (slack.n_Do w)) ->
  slack.send_loop s ctx url body (attempt :: rest) lastErr w =
  slack.send_loop s ctx url body rest
    (Some (failure_of (slack.Do_result w (slack.n_Do w)))) (after_retry post attempt w).
Proof.
  intros Hreq Hretry. cbn [slack.send_loop]. rewrite Hreq.
  unfold slack.client_Do, after_retry, slack.emit. cbn.
  destruct (slack.Do_result w (slack.n_Do w)) as [e|code]; cbn in *.
  - by rewrite <- app_assoc.
  - case_decide; [|tauto]. by rewrite <- app_assoc.
Qed.

Lemma send_loop_final attempt rest lastErr w code :
  slack.NewRequest_err w url = None ->
  slack.Do_result w (slack.n_Do w) = slack.Response code ->
  ~ (code = 429 \/ code >= 500) ->
  slack.send_loop s ctx url body (attempt :: rest) lastErr w =
  (if decide (code >= 200 /\ code < 300) then None
   else Some (errors_New ("slack returned non-retryable status " +:+ itoa code)),
   after_last post w).
Proof.
  intros Hreq Hdo Hcode. cbn [slack.send_loop]. rewrite Hreq.
  unfold slack.client_Do. rewrite Hdo.
  case_decide; [tauto|]. by case_decide.
Qed.

End SlackSender.

(** C5. [Execute] with a usable webhook URL: when the three attempts all
    end in a retryable outcome it has made exactly three POSTs, slept
    200ms, 400ms and 600ms after them, and returns an error wrapping the
    failure of the third; when after [k < 3] retryable outcomes a response
    is neither 429 nor 500 and above, it stops after that POST, returning
    nil for a 2xx status and a non-retryable error for any other. *)
Theorem Execute_retry_policy (s : slack.Sender) (ctx : Context) (cfg : map_string_any)
    (payload : string) (w : slack.World) :
  let url := string_at cfg "webhook_url" in
  let post := slack_post s ctx cfg payload in
  let r := fun i : nat => slack.Do_result w (i + slack.n_Do w)%nat in
  let result := slack.Execute s ctx cfg payload w in
  url <> "" ->
  slack.NewRequest_err w url = None ->
  (retryable (r 0%nat) -> retryable (r 1%nat) -> retryable (r 2%nat) ->
   fst result =
     Some (Errorf_w "slack send failed after retries: " (failure_of (r 2%nat))) /\
   slack.events (snd result) =
     slack.events w ++
       [post; slack.Sleep (200 * Millisecond);
        post; slack.Sleep (400 * Millisecond);
        post; slack.Sleep (600 * Millisecond)] /\
   slack.n_Do (snd result) = (3 + slack.n_Do w)%nat)
  /\
  (forall (k : nat) (code : Z),
     (k < 3)%nat ->
     (forall i, (i < k)%nat -> retryable (r i)) ->
     r k = slack.Response code ->
     ~ (code = 429 \/ code >= 500) ->
     fst result =
       (if decide (code >= 200 /\ code < 300) then None
        else Some (errors_New ("slack returned non-retryable status " +:+ itoa code))) /\
     slack.events (snd result) = slack.events w ++ failed_attempts post k ++ [post] /\
     slack.n_Do (snd result) = (S k + slack.n_Do w)%nat).
Proof.
  intros url post r result Hurl Hreq. subst result. unfold slack.Execute.
  fold url. case_decide; [done|]. split.
  - intros H0 H1 H2.
    rewrite send_loop_retry; [|done..].
    rewrite send_loop_retry; [|done..].
    rewrite send_loop_retry; [|done..].
    cbn. repeat rewrite <- app_assoc. done.
  - intros k code Hk Hpre Hdo Hcode.
    destruct k as [|[|[|k]]]; [| | |lia].
    + erewrite send_loop_final; [|done..]. cbn. by case_decide.
    + rewrite send_loop_retry; [|done|by apply (Hpre 0%nat); lia].
      erewrite send_loop_final; [|done..].
      cbn. repeat rewrite <- app_assoc. by case_decide.
    + rewrite send_loop_retry; [|done|by apply (Hpre 0%nat); lia].
      rewrite send_loop_retry; [|done|by apply (Hpre 1%nat); lia].
      erewrite send_loop_final; [|done..].
      cbn. repeat rewrite <- app_assoc. by case_decide.
Qed.

Lemma Execute_retry_policy_witness :
  (fst (slack.Execute slack.New Background examples.hook_cfg "{}" examples.always503) =
     Some (Errorf_w "slack send failed after retries: " (errors_New "slack returned 503")) /\
   sleeps (slack.events (snd (slack.Execute slack.New Background examples.hook_cfg "{}"
                                examples.always503))) =
     [200 * Millisecond; 400 * Millisecond; 600 * Millisecond] /\
   length (posts (slack.events (snd (slack.Execute slack.New Background examples.hook_cfg "{}"
                                       examples.always503)))) = 3%nat /\
   slack.n_Do (snd (slack.Execute slack.New Background examples.hook_cfg "{}"
                      examples.always503)) = 3%nat) /\
  (fst (slack.Execute slack.New Background examples.hook_cfg "{}"
          (examples.scripted [slack.Response 503; slack.Response 400])) =
     Some (errors_New "slack returned non-retryable status 400") /\
   slack.n_Do (snd (slack.Execute slack.New Background examples.hook_cfg "{}"
                      (examples.scripted [slack.Response 503; slack.Response 400]))) = 2%nat) /\
  (fst (slack.Execute slack.New Background examples.hook_cfg "{}"
          (examples.scripted [slack.Response 500; slack.DoErr (errors_New "connection reset");
                              slack.Response 204])) = None /\
   slack.n_Do (snd (slack.Execute slack.New Background examples.hook_cfg "{}"
                      (examples.scripted [slack.Response 500;
                                          slack.DoErr (errors_New "connection reset");
                                          slack.Response 204]))) = 3%nat).
Proof.
  split; [|split].
  - destruct (Execute_retry_policy slack.New Background examples.hook_cfg "{}"
                examples.always503) as [Hall _]; [by vm_compute| reflexivity |].
    destruct Hall as (Herr & Hev & Hn); [unfold examples.always503; cbn; lia..|].
    split; [exact Herr|]. rewrite Hev. split; [reflexivity|]. split; [reflexivity|exact Hn].
  - destruct (Execute_retry_policy slack.New Background examples.hook_cfg "{}"
                (examples.scripted [slack.Response 503; slack.Response 400]))
      as [_ Hstop]; [by vm_compute| reflexivity |].
    destruct (Hstop 1%nat 400) as (Herr & _ & Hn); [lia| |reflexivity|lia|].
    + intros i Hi. assert (i = 0%nat) as -> by lia. unfold examples.scripted; cbn; lia.
    + split; [exact Herr|exact Hn].
  - destruct (Execute_retry_policy slack.New Background examples.hook_cfg "{}"
                (examples.scripted [slack.Response 500;
                                    slack.DoErr (errors_New "connection reset");
                                    slack.Response 204]))
      as [_ Hstop]; [by vm_compute| reflexivity |].
    destruct (Hstop 2%nat 204) as (Herr & _ & Hn); [lia| |reflexivity|lia|].
    + intros i Hi. assert (i = 0%nat \/ i = 1%nat) as [-> | ->] by lia;
        unfold examples.scripted; cbn; [lia|done].
    + split; [exact Herr|exact Hn].
Defined.

Lemma send_loop_events s ctx url body attempts lastErr w :
  exists new,
    slack.events (snd (slack.send_loop s ctx url body attempts lastErr w)) =
      slack.events w ++ new /\
    Forall (fun e => e = slack.Post ctx url "application/json" body (slack.client_Timeout s) \/
                     exists d, e = slack.Sleep d) new.
Proof.
  revert lastErr w. induction attempts as [|attempt rest IH]; intros lastErr w.
  - exists []. cbn. by rewrite app_nil_r.
  - cbn [slack.send_loop]. destruct (slack.NewRequest_err w url).
    { exists []. cbn. by rewrite app_nil_r. }
    unfold slack.client_Do.
    set (p := slack.Post ctx url "application/json" body (slack.client_Timeout s)).
    assert (Hretry : forall e,
      exists new,
        slack.events (snd (slack.send_loop s ctx url body rest e
          (slack.emit (slack.Sleep (200 * (attempt + 1) * Millisecond))
             (slack.mkWorld (slack.NewRequest_err w) (slack.Do_result w)
                (S (slack.n_Do w)) (slack.events w ++ [p]))))) = slack.events w ++ new /\
        Forall (fun e => e = p \/ exists d, e = slack.Sleep d) new).
    { intros e.
      destruct (IH e (slack.emit (slack.Sleep (200 * (attempt + 1) * Millisecond))
             (slack.mkWorld (slack.NewRequest_err w) (slack.Do_result w)
                (S (slack.n_Do w)) (slack.events w ++ [p])))) as (new & Hev & Hnew).
      exists ([p; slack.Sleep (200 * (attempt + 1) * Millisecond)] ++ new).
      split; [rewrite Hev; cbn; by repeat rewrite <- app_assoc|].
      apply Forall_app. split; [|done].
      constructor; [by left|]. constructor; [right; eauto|constructor]. }
    destruct (slack.Do_result w (slack.n_Do w)) as [e|code]; [apply Hretry|].
    case_decide; [apply Hretry|].
    exists [p]. split; [by repeat case_decide|]. constructor; [by left|constructor].
Qed.

Lemma posted_texts_all (p : slack.Event) (t : option any) (new : list slack.Event) :
  (forall ctx url ct body tm, p = slack.Post ctx url ct body tm -> body !! "text" = t) ->
  Forall (fun e => e = p \/ exists d, e = slack.Sleep d) new ->
  Forall (fun x => x = t) (posted_texts new).
Proof.
  intros Hp. induction 1 as [|e new He _ IH]; [constructor|].
  unfold posted_texts. cbn. destruct He as [->|[d ->]].
  - destruct p; cbn; [|done]. constructor; [by eapply Hp|done].
  - done.
Qed.

(** C10. The events [Execute] adds carry, in every POST, one text: the
    template whenever the configuration holds a non-empty string under
    [message_template], and then the whole run is the same for every
    payload; the payload in its fenced block whenever the key is absent,
    holds the empty string or holds something that is not a string. *)
Theorem Execute_message_text (s : slack.Sender) (ctx : Context) (cfg : map_string_any)
    (payload : string) (w : slack.World) :
  exists new,
    slack.events (snd (slack.Execute s ctx cfg payload w)) = slack.events w ++ new /\
    (forall template,
       cfg !! "message_template" = Some (VString template) -> template <> "" ->
       Forall (fun t => t = Some (VString template)) (posted_texts new) /\
       forall payload', slack.Execute s ctx cfg payload' w = slack.Execute s ctx cfg payload w) /\
    (cfg !! "message_template" = None \/
     cfg !! "message_template" = Some (VString "") \/
     (exists v, cfg !! "message_template" = Some v /\ forall t, v <> VString t) ->
     Forall (fun t => t = Some (VString (rendered_payload payload))) (posted_texts new)).
Proof.
  unfold slack.Execute. case_decide.
  { exists []. cbn. rewrite app_nil_r. repeat split; intros; constructor. }
  edestruct send_loop_events as (new & Hev & Hnew). exists new.
  split; [exact Hev|]. split.
  - intros template Hcfg Hne.
    assert (Htext : forall p, slack.message_text cfg p = template).
    { intros p. unfold slack.message_text, string_at. rewrite Hcfg. by case_decide. }
    split.
    + eapply posted_texts_all; [|exact Hnew].
      intros ? ? ? ? ? [= <- <- <- <- <-]. rewrite lookup_singleton_eq.
      by rewrite Htext.
    + intros payload'. by rewrite !Htext.
  - intros Hcfg.
    assert (Htext : slack.message_text cfg payload = rendered_payload payload).
    { unfold slack.message_text, string_at.
      destruct Hcfg as [-> | [-> | (v & -> & Hv)]]; [done|done|].
      destruct v; try done. case_decide; [done|]. by destruct (Hv s0). }
    eapply posted_texts_all; [|exact Hnew].
    intros ? ? ? ? ? [= <- <- <- <- <-]. rewrite lookup_singleton_eq.
    by rewrite Htext.
Qed.

Lemma Execute_message_text_witness :
  (Forall (fun t => t = Some (VString "deploy finished"))
     (posted_texts (slack.events (snd (slack.Execute slack.New Background
        examples.templated_cfg examples.payload_x1 examples.always503)))) /\
   length (posted_texts (slack.events (snd (slack.Execute slack.New Background
        examples.templated_cfg examples.payload_x1 examples.always503)))) = 3%nat) /\
  (Forall (fun t => t = Some (VString (rendered_payload examples.payload_x1)))
     (posted_texts (slack.events (snd (slack.Execute slack.New Background
        examples.hook_cfg examples.payload_x1 examples.always503)))) /\
   length (posted_texts (slack.events (snd (slack.Execute slack.New Background
        examples.hook_cfg examples.payload_x1 examples.always503)))) = 3%nat).
Proof.
  split.
  - destruct (Execute_message_text slack.New Background examples.templated_cfg
                examples.payload_x1 examples.always503) as (new & Hev & Htemplate & _).
    rewrite Hev. cbn [slack.events examples.always503 app].
    destruct (Htemplate "deploy finished") as [Hall _]; [reflexivity|discriminate|].
    split; [exact Hall|].
    cbn in Hev. rewrite <- Hev. reflexivity.
  - destruct (Execute_message_text slack.New Background examples.hook_cfg
                examples.payload_x1 examples.always503) as (new & Hev & _ & Hpayload).
    rewrite Hev. cbn [slack.events examples.always503 app].
    split; [apply Hpayload; left; reflexivity|].
    cbn in Hev. rewrite <- Hev. reflexivity.
Defined.

(** ** The engine *)
Section EngineFacts.

Context {E : Type} (reg : engine.Registry E).
Implicit Types (f : store.Faults) (w : engine.World E) (job : engine.Job).
Implicit Types (t new : list engine.Event).

Lemma since_app w w' new :
  engine.trace w' = engine.trace w ++ new -> since w w' = new.
Proof. unfold since. intros ->. apply drop_app_length. Qed.

Lemma executed_app t1 t2 :
  engine.executed (t1 ++ t2) = engine.executed t1 ++ engine.executed t2.
Proof. apply omap_app. Qed.

Lemma acks_app t1 t2 : engine.acks (t1 ++ t2) = engine.acks t1 ++ engine.acks t2.
Proof. apply omap_app. Qed.

Lemma log_calls_app t1 t2 :
  engine.log_calls (t1 ++ t2) = engine.log_calls t1 ++ engine.log_calls t2.
Proof. apply omap_app. Qed.

Lemma fetch_calls_app t1 t2 :
  engine.fetch_calls (t1 ++ t2) = engine.fetch_calls t1 ++ engine.fetch_calls t2.
Proof. apply omap_app. Qed.

Lemma chain_events_silent t :
  Forall chain_event t ->
  engine.acks t = [] /\ engine.log_calls t = [] /\ engine.fetch_calls t = [].
Proof.
  induction 1 as [|e t He _ IH]; [done|].
  destruct e; try done; cbn; exact IH.
Qed.

Lemma audit_events_silent f job logger err :
  engine.acks (audit_events f job logger err) = [] /\
  engine.fetch_calls (audit_events f job logger err) = [] /\
  engine.executed (audit_events f job logger err) = [] /\
  engine.log_calls (audit_events f job logger err) =
    [(logCtx, (engine.RelayID job,
               match err with Some _ => "failed" | None => "success" end,
               match err with Some e => Error e | None => "Relay executed successfully" end,
               engine.EventID job, engine.Payload job))].
Proof. unfold audit_events. by destruct (store.LogExecution_Exec f). Qed.

Lemma executed_job_events f ctx job logger err chain :
  engine.executed
    (dedup_events ctx job ++ [engine.Store_GetRelayActions ctx (engine.RelayID job)] ++
     chain ++ audit_events f job logger err) = engine.executed chain.
Proof.
  rewrite !executed_app.
  destruct (audit_events_silent f job logger err) as (_ & _ & -> & _).
  unfold dedup_events. case_decide; cbn; by rewrite app_nil_r.
Qed.

Lemma deferred_log_eq f job logger err w :
  engine.deferred_log f job logger err w =
  engine.mkWorld (audit_db f job err (engine.db w)) (engine.ext w)
    (engine.trace w ++ audit_events f job logger err).
Proof.
  unfold engine.deferred_log, audit_db, audit_events, audit_call, store.LogExecution, logCtx.
  unfold engine.slog, engine.emit. cbn. destruct (store.LogExecution_Exec f); cbn.
  all: by repeat rewrite <- app_assoc.
Qed.

(** The executor loop leaves the database alone, adds only its own events,
    invokes a prefix of the actions, and all of them when it returns nil. *)
Lemma run_actions_spec ctx job logger actions w :
  exists new,
    engine.db (snd (engine.run_actions reg ctx job logger actions w)) = engine.db w /\
    engine.trace (snd (engine.run_actions reg ctx job logger actions w)) =
      engine.trace w ++ new /\
    Forall chain_event new /\
    engine.executed new `prefix_of` actions /\
    (fst (engine.run_actions reg ctx job logger actions w) = None ->
     engine.executed new = actions).
Proof.
  revert w. induction actions as [|act rest IH]; intros w.
  - exists []. cbn. by rewrite app_nil_r.
  - cbn [engine.run_actions]. unfold engine.slog, engine.emit. cbn.
    destruct (reg (store.ActionType act)) as [pluginErr|executor].
    + eexists [_; _]. cbn. repeat rewrite <- app_assoc. cbn.
      repeat split; [repeat constructor|apply prefix_nil|done].
    + destruct (executor ctx (store.Config act) (engine.Payload job) (engine.ext w))
        as [[execErr|] ext'] eqn:Hexec.
      * eexists [_; _; _]. cbn. repeat rewrite <- app_assoc. cbn.
        repeat split; [repeat constructor|apply prefix_cons, prefix_nil|done].
      * match goal with |- context [engine.run_actions _ _ _ _ rest ?w0] =>
          set (w3 := w0) end.
        destruct (IH w3) as (new & Hdb & Htr & Hchain & Hpre & Hall).
        eexists ([_; _; _] ++ new). rewrite Hdb, Htr.
        split; [done|]. split; [subst w3; cbn; by repeat rewrite <- app_assoc|].
        split; [repeat constructor; done|]. split; [by apply prefix_cons|].
        intros Hnone. cbn. by rewrite <- (Hall Hnone).
Qed.

Lemma GetRelayActions_ext f ctx relayID (d d' : store.DB) :
  store.relays d = store.relays d' ->
  store.relay_actions d = store.relay_actions d' ->
  store.GetRelayActions f ctx relayID d = store.GetRelayActions f ctx relayID d'.
Proof.
  intros Hr Ha. unfold store.GetRelayActions, store.select_actions. by rewrite Hr, Ha.
Qed.

Lemma GetRelayActions_after_dedup f ctx ctx' relayID job w :
  store.GetRelayActions f ctx relayID (engine.db (after_dedup ctx' job w)) =
  store.GetRelayActions f ctx relayID (engine.db w).
Proof. unfold after_dedup. case_decide; [done|]. by apply GetRelayActions_ext. Qed.

(** [process] after the dedup stage: the fetch, the events of the loop,
    then the audit write with the error the job ended with. *)
Lemma with_deferred_log_spec f ctx job logger w :
  exists chain,
    engine.trace (snd (engine.with_deferred_log reg f ctx job logger w)) =
      engine.trace w ++ [engine.Store_GetRelayActions ctx (engine.RelayID job)] ++ chain ++
        audit_events f job logger (fst (engine.with_deferred_log reg f ctx job logger w)) /\
    engine.db (snd (engine.with_deferred_log reg f ctx job logger w)) =
      audit_db f job (fst (engine.with_deferred_log reg f ctx job logger w)) (engine.db w) /\
    Forall chain_event chain /\
    match store.GetRelayActions f ctx (engine.RelayID job) (engine.db w) with
    | inl e =>
        fst (engine.with_deferred_log reg f ctx job logger w) = Some e /\ chain = [] /\
        engine.ext (snd (engine.with_deferred_log reg f ctx job logger w)) = engine.ext w
    | inr actions =>
        engine.executed chain `prefix_of` actions /\
        (fst (engine.with_deferred_log reg f ctx job logger w) = None ->
         engine.executed chain = actions)
    end.
Proof.
  unfold engine.with_deferred_log, engine.fetch_and_run. cbn [engine.emit engine.db].
  destruct (store.GetRelayActions f ctx (engine.RelayID job) (engine.db w))
    as [fetchErr|actions].
  - exists []. rewrite deferred_log_eq. cbn. by rewrite <- app_assoc.
  - set (w1 := engine.emit _ w).
    destruct (run_actions_spec ctx job logger actions w1)
      as (chain & Hdb & Htr & Hchain & Hpre & Hall).
    destruct (engine.run_actions reg ctx job logger actions w1) as [err w2].
    cbn [fst snd] in *. exists chain. rewrite deferred_log_eq. cbn [engine.trace engine.db].
    rewrite Hdb, Htr. subst w1. cbn. by repeat rewrite <- app_assoc.
Qed.

Lemma process_dedup_error f ctx job logger w e :
  engine.EventID job <> "" ->
  store.RegisterEvent_Exec f = Some e ->
  engine.process reg f ctx job logger w =
  (Some (Errorf_w "dedupe insert failed: " e),
   engine.emit (engine.Store_RegisterEvent ctx (engine.RelayID job) (engine.EventID job)) w).
Proof.
  intros Hid Hexec. unfold engine.process, store.RegisterEvent.
  destruct (decide (engine.EventID job <> "")); [|done].
  destruct (decide (engine.EventID job = "")); [done|].
  rewrite Hexec. by destruct w.
Qed.

Lemma process_duplicate f ctx job logger w :
  engine.EventID job <> "" ->
  store.RegisterEvent_Exec f = None ->
  (engine.RelayID job, engine.EventID job) ∈ store.processed_events (engine.db w) ->
  engine.process reg f ctx job logger w =
  (None,
   engine.slog logger LevelInfo "duplicate event skipped"
     [("relay_id", engine.RelayID job); ("event_id", engine.EventID job)]
     (engine.emit (engine.Store_RegisterEvent ctx (engine.RelayID job) (engine.EventID job)) w)).
Proof.
  intros Hid Hexec Hin. unfold engine.process, store.RegisterEvent.
  destruct (decide (engine.EventID job <> "")); [|done].
  destruct (decide (engine.EventID job = "")); [done|].
  rewrite Hexec. cbn [engine.emit engine.db].
  destruct (decide (_ ∈ _)); [|done]. by destruct w.
Qed.

Lemma process_passes f ctx job logger w :
  passes_dedup f job (engine.db w) ->
  engine.process reg f ctx job logger w =
  engine.with_deferred_log reg f ctx job logger (after_dedup ctx job w).
Proof.
  intros [Hid|[Hexec Hnotin]]; unfold engine.process, after_dedup, store.RegisterEvent.
  - destruct (decide (engine.EventID job <> "")); [done|].
    by destruct (decide (engine.EventID job = "")).
  - destruct (decide (engine.EventID job = "")) as [Hid|Hid].
    + by destruct (decide (engine.EventID job <> "")).
    + destruct (decide (engine.EventID job <> "")); [|done].
      rewrite Hexec. cbn [engine.emit engine.db].
      by destruct (decide (_ ∈ _)).
Qed.

(** The three ways through the dedup stage. *)
Lemma dedup_cases f job (d : store.DB) :
  (engine.EventID job <> "" /\ exists e, store.RegisterEvent_Exec f = Some e) \/
  (engine.EventID job <> "" /\ store.RegisterEvent_Exec f = None /\
   (engine.RelayID job, engine.EventID job) ∈ store.processed_events d) \/
  passes_dedup f job d.
Proof.
  unfold passes_dedup.
  destruct (decide (engine.EventID job = "")); [by auto|].
  destruct (store.RegisterEvent_Exec f); [by eauto|].
  destruct (decide ((engine.RelayID job, engine.EventID job) ∈ store.processed_events d));
    by auto.
Qed.

Lemma worker_job_eq f ctx id job w :
  engine.worker_job reg f ctx id job w =
  job_finished id job
    (fst (engine.process reg f ctx job (worker_logger id) (job_received id job w)))
    (snd (engine.process reg f ctx job (worker_logger id) (job_received id job w))).
Proof.
  unfold engine.worker_job, job_finished, job_received, worker_logger.
  by destruct (engine.process _ _ _ _ _ _) as [[e|] w2].
Qed.

Lemma job_finished_trace id job err w :
  exists r,
    engine.trace (job_finished id job err w) =
      engine.trace w ++ [engine.Slog r; engine.MsgAck (ack_of err)] /\
    engine.db (job_finished id job err w) = engine.db w /\
    engine.ext (job_finished id job err w) = engine.ext w.
Proof.
  unfold job_finished, engine.slog, engine.emit.
  destruct err; eexists; cbn; by repeat rewrite <- app_assoc.
Qed.

Lemma after_dedup_trace ctx job w :
  engine.trace (after_dedup ctx job w) = engine.trace w ++ dedup_events ctx job /\
  engine.ext (after_dedup ctx job w) = engine.ext w /\
  store.relays (engine.db (after_dedup ctx job w)) = store.relays (engine.db w) /\
  store.relay_actions (engine.db (after_dedup ctx job w)) = store.relay_actions (engine.db w) /\
  store.execution_logs (engine.db (after_dedup ctx job w)) =
    store.execution_logs (engine.db w).
Proof.
  unfold after_dedup, dedup_events. case_decide; cbn; [|done]. by rewrite app_nil_r.
Qed.

(** A job past the dedup stage: its events, its database, and what it
    invoked against what it fetched. *)
Lemma process_passes_spec f ctx job logger w :
  passes_dedup f job (engine.db w) ->
  exists chain,
    engine.trace (snd (engine.process reg f ctx job logger w)) =
      engine.trace w ++ dedup_events ctx job ++
        [engine.Store_GetRelayActions ctx (engine.RelayID job)] ++ chain ++
        audit_events f job logger (fst (engine.process reg f ctx job logger w)) /\
    engine.db (snd (engine.process reg f ctx job logger w)) =
      audit_db f job (fst (engine.process reg f ctx job logger w))
        (engine.db (after_dedup ctx job w)) /\
    Forall chain_event chain /\
    match store.GetRelayActions f ctx (engine.RelayID job) (engine.db w) with
    | inl e =>
        fst (engine.process reg f ctx job logger w) = Some e /\ chain = [] /\
        engine.ext (snd (engine.process reg f ctx job logger w)) = engine.ext w
    | inr actions =>
        engine.executed chain `prefix_of` actions /\
        (fst (engine.process reg f ctx job logger w) = None ->
         engine.executed chain = actions)
    end.
Proof.
  intros Hpass. rewrite (process_passes _ _ _ _ _ Hpass).
  destruct (with_deferred_log_spec f ctx job logger (after_dedup ctx job w))
    as (chain & Htr & Hdb & Hchain & Hfetch).
  destruct (after_dedup_trace ctx job w) as (Htr0 & Hext0 & _).
  exists chain. rewrite Htr, Hdb, Htr0. rewrite GetRelayActions_after_dedup in Hfetch.
  split; [by repeat rewrite <- app_assoc|]. split; [done|]. split; [done|].
  destruct (store.GetRelayActions _ _ _ _); [|done].
  destruct Hfetch as (? & ? & ->). done.
Qed.

(** Every path through [process] only appends events, none of them an
    acknowledgement. *)
Lemma process_extends f ctx job logger w :
  exists new,
    engine.trace (snd (engine.process reg f ctx job logger w)) = engine.trace w ++ new /\
    engine.acks new = [].
Proof.
  destruct (dedup_cases f job (engine.db w)) as [[Hid [e He]]|[(Hid & He & Hin)|Hpass]].
  - rewrite (process_dedup_error _ _ _ _ _ _ Hid He). by eexists [_].
  - rewrite (process_duplicate _ _ _ _ _ Hid He Hin). unfold engine.slog, engine.emit. cbn.
    eexists [_; _]. by rewrite <- app_assoc.
  - destruct (process_passes_spec f ctx job logger w Hpass) as (chain & Htr & _ & Hchain & _).
    eexists. split; [exact Htr|].
    destruct (chain_events_silent _ Hchain) as (Hacks & _).
    destruct (audit_events_silent f job logger
                (fst (engine.process reg f ctx job logger w))) as (Hacks' & _).
    rewrite !acks_app, Hacks, Hacks'. unfold dedup_events. by case_decide.
Qed.

(** What worker [id] adds for one job: its first line, the events of
    [process], its last line and the acknowledgement. *)
Lemma worker_job_since f ctx id job w :
  exists r0 r1,
    since w (engine.worker_job reg f ctx id job w) =
      engine.Slog r0 ::
      since (job_received id job w)
        (snd (engine.process reg f ctx job (worker_logger id) (job_received id job w))) ++
      [engine.Slog r1;
       engine.MsgAck
         (ack_of (fst (engine.process reg f ctx job (worker_logger id) (job_received id job w))))] /\
    engine.db (engine.worker_job reg f ctx id job w) =
      engine.db (snd (engine.process reg f ctx job (worker_logger id) (job_received id job w))) /\
    engine.ext (engine.worker_job reg f ctx id job w) =
      engine.ext (snd (engine.process reg f ctx job (worker_logger id) (job_received id job w))).
Proof.
  rewrite worker_job_eq.
  destruct (process_extends f ctx (job) (worker_logger id) (job_received id job w))
    as (new & Htr & _).
  destruct (job_finished_trace id job
              (fst (engine.process reg f ctx job (worker_logger id) (job_received id job w)))
              (snd (engine.process reg f ctx job (worker_logger id) (job_received id job w))))
    as (r1 & Hfin & Hdb & Hext).
  eexists _, r1. split; [|done].
  rewrite (since_app _ _ _ Htr).
  apply since_app. rewrite Hfin, Htr. unfold job_received, engine.slog, engine.emit. cbn.
  by repeat rewrite <- app_assoc.
Qed.

(** One acknowledgement per job, false exactly when [process] returns an
    error. *)
Lemma worker_job_acks f ctx id job w :
  engine.acks (since w (engine.worker_job reg f ctx id job w)) =
  [ack_of (fst (engine.process reg f ctx job (worker_logger id) (job_received id job w)))].
Proof.
  destruct (worker_job_since f ctx id job w) as (r0 & r1 & -> & _).
  destruct (process_extends f ctx (job) (worker_logger id) (job_received id job w))
    as (new & Htr & Hacks).
  rewrite (since_app _ _ _ Htr). cbn. rewrite acks_app, Hacks. done.
Qed.

(** The invocations, audit writes and fetches of a worker's job are those
    of [process]. *)
Lemma worker_job_calls f ctx id job w :
  let new :=
    since (job_received id job w)
      (snd (engine.process reg f ctx job (worker_logger id) (job_received id job w))) in
  engine.executed (since w (engine.worker_job reg f ctx id job w)) = engine.executed new /\
  engine.log_calls (since w (engine.worker_job reg f ctx id job w)) = engine.log_calls new /\
  engine.fetch_calls (since w (engine.worker_job reg f ctx id job w)) = engine.fetch_calls new.
Proof.
  intros new. destruct (worker_job_since f ctx id job w) as (r0 & r1 & -> & _).
  fold new. change (engine.Slog r0 :: new ++ ?l) with ([engine.Slog r0] ++ new ++ l).
  rewrite !executed_app, !log_calls_app, !fetch_calls_app. cbn.
  by rewrite !app_nil_r.
Qed.

End EngineFacts.

(** ** The order of the fetched actions *)

#[local] Instance by_order_index_total : Total store.by_order_index.
Proof. intros a b. unfold store.by_order_index. lia. Qed.

#[local] Instance by_order_index_trans : Transitive store.by_order_index.
Proof. intros a b c. unfold store.by_order_index. lia. Qed.

Lemma scan_rows_order f i rows acc actions :
  store.scan_rows f i rows acc = inr actions ->
  store.OrderIndex <$> actions =
    (store.OrderIndex <$> acc) ++ (store.a_order_index <$> rows).
Proof.
  revert i acc. induction rows as [|row rows IH]; intros i acc Hscan; cbn in Hscan.
  - injection Hscan as <-. by rewrite app_nil_r.
  - destruct (store.GetRelayActions_Scan f i); [done|].
    destruct (store.Unmarshal_config (store.a_config row)) as [|cfg]; [done|].
    rewrite (IH _ _ Hscan), fmap_app. cbn. by rewrite <- app_assoc.
Qed.

Lemma GetRelayActions_order f ctx relayID (d : store.DB) actions :
  store.GetRelayActions f ctx relayID d = inr actions ->
  actions <> [] /\
  store.OrderIndex <$> actions = store.a_order_index <$> store.select_actions relayID d.
Proof.
  unfold store.GetRelayActions. intros Hget.
  destruct (store.GetRelayActions_Query f); [done|].
  destruct (store.scan_rows f 0 (store.select_actions relayID d) []) as [|acts] eqn:Hscan;
    [done|].
  destruct (store.GetRelayActions_rows_Err f); [done|].
  case_decide as Hlen; [done|]. injection Hget as <-.
  split; [by destruct acts|]. by rewrite (scan_rows_order _ _ _ _ _ Hscan).
Qed.

Lemma select_actions_active relayID (d : store.DB) :
  store.select_actions relayID d <> [] ->
  store.relays d !! relayID = Some (Some true) /\
  store.select_actions relayID d ≡ₚ
    filter (fun a => store.a_relay_id a = relayID) (store.relay_actions d).
Proof.
  unfold store.select_actions.
  destruct (store.relays d !! relayID) as [[[|]|]|]; try done.
  intros _. split; [done|]. apply merge_sort_Permutation.
Qed.

Lemma select_actions_sorted relayID (d : store.DB) :
  StronglySorted Z.le (store.a_order_index <$> store.select_actions relayID d).
Proof.
  apply (StronglySorted_fmap _ store.by_order_index); [done|].
  unfold store.select_actions.
  destruct (store.relays d !! relayID) as [[[|]|]|]; try constructor.
  apply StronglySorted_merge_sort; apply _.
Qed.





Section EngineClaims.

Context {E : Type} (reg : engine.Registry E).
Implicit Types (f : store.Faults) (w : engine.World E) (job : engine.Job).

Lemma audit_db_tables f job err (d : store.DB) :
  store.relays (audit_db f job err d) = store.relays d /\
  store.relay_actions (audit_db f job err d) = store.relay_actions d /\
  store.processed_events (audit_db f job err d) = store.processed_events d.
Proof. unfold audit_db, store.LogExecution. by destruct (store.LogExecution_Exec f). Qed.

(** Once a job with an event id got through the insert of its marker, the
    marker is in [processed_events], whatever happened to the job after. *)
Lemma worker_job_marks f ctx id job w :
  engine.EventID job <> "" ->
  store.RegisterEvent_Exec f = None ->
  (engine.RelayID job, engine.EventID job) ∈
    store.processed_events (engine.db (engine.worker_job reg f ctx id job w)).
Proof.
  intros Hid Hexec.
  destruct (worker_job_since reg f ctx id job w) as (_ & _ & _ & -> & _).
  destruct (dedup_cases f job (engine.db (job_received id job w)))
    as [[_ [e He]]|[(_ & _ & Hin)|Hpass]].
  - congruence.
  - by rewrite (process_duplicate reg _ _ _ _ _ Hid Hexec Hin).
  - destruct (process_passes_spec reg f ctx job (worker_logger id) _ Hpass)
      as (_ & _ & -> & _).
    destruct (audit_db_tables f job
      (fst (engine.process reg f ctx job (worker_logger id) (job_received id job w)))
      (engine.db (after_dedup ctx job (job_received id job w)))) as (_ & _ & ->).
    unfold after_dedup. case_decide; [done|]. cbn. set_solver.
Qed.

(** C7. When the insert of the dedup marker reports a storage error,
    [process] returns that error (wrapped), the job is acknowledged false,
    and the worker neither writes an audit record, nor fetches the actions,
    nor invokes an executor; the database is as it was. *)
Theorem dedup_storage_error_fails_job f ctx id job w e :
  engine.EventID job <> "" ->
  store.RegisterEvent_Exec f = Some e ->
  let w' := engine.worker_job reg f ctx id job w in
  fst (engine.process reg f ctx job (worker_logger id) (job_received id job w)) =
    Some (Errorf_w "dedupe insert failed: " e) /\
  engine.acks (since w w') = [false] /\
  engine.log_calls (since w w') = [] /\
  engine.fetch_calls (since w w') = [] /\
  engine.executed (since w w') = [] /\
  engine.db w' = engine.db w /\
  engine.ext w' = engine.ext w.
Proof.
  intros Hid Hexec w'. subst w'.
  destruct (worker_job_since reg f ctx id job w) as (r0 & r1 & -> & -> & ->).
  rewrite (process_dedup_error reg _ _ _ _ _ _ Hid Hexec). cbn [fst snd].
  erewrite since_app; [|reflexivity]. done.
Qed.

(** C2. A job with an event id, processed a second time after a run that
    got through the insert of its marker: when the second insert reports no
    storage error, [process] returns nil, the job is acknowledged true, and
    the second run invokes no executor, makes no audit write, fetches no
    actions and leaves the database and the executors' world as they were. *)
Theorem duplicate_delivery_is_skipped f1 f2 ctx1 ctx2 id1 id2 job w :
  engine.EventID job <> "" ->
  store.RegisterEvent_Exec f1 = None ->
  store.RegisterEvent_Exec f2 = None ->
  let w1 := engine.worker_job reg f1 ctx1 id1 job w in
  let w2 := engine.worker_job reg f2 ctx2 id2 job w1 in
  fst (engine.process reg f2 ctx2 job (worker_logger id2) (job_received id2 job w1)) = None /\
  engine.acks (since w1 w2) = [true] /\
  engine.executed (since w1 w2) = [] /\
  engine.log_calls (since w1 w2) = [] /\
  engine.fetch_calls (since w1 w2) = [] /\
  engine.db w2 = engine.db w1 /\
  engine.ext w2 = engine.ext w1.
Proof.
  intros Hid Hexec1 Hexec2 w1 w2. subst w2.
  pose proof (worker_job_marks f1 ctx1 id1 job w Hid Hexec1) as Hin. fold w1 in Hin.
  destruct (worker_job_since reg f2 ctx2 id2 job w1) as (r0 & r1 & -> & -> & ->).
  rewrite (process_duplicate reg f2 ctx2 job (worker_logger id2) (job_received id2 job w1)
             Hid Hexec2 Hin).
  cbn [fst snd]. erewrite since_app;
    [|unfold engine.slog, engine.emit; cbn; by rewrite <- app_assoc].
  done.
Qed.

Lemma GetRelayActions_no_rows f ctx relayID (d : store.DB) :
  store.GetRelayActions_Query f = None ->
  store.GetRelayActions_rows_Err f = None ->
  store.relays d !! relayID <> Some (Some true) \/
  Forall (fun a => store.a_relay_id a <> relayID) (store.relay_actions d) ->
  store.GetRelayActions f ctx relayID d = inl store.ErrNoActions.
Proof.
  intros Hq Hr Hnone. unfold store.GetRelayActions. rewrite Hq.
  assert (store.select_actions relayID d = []) as ->.
  { unfold store.select_actions. destruct Hnone as [Hrelay|Hrows].
    - destruct (store.relays d !! relayID) as [[[|]|]|]; done.
    - assert (filter (fun a => store.a_relay_id a = relayID) (store.relay_actions d) = [])
        as ->; [|by repeat case_match].
      induction Hrows as [|a rows Ha _ IH]; [done|].
      rewrite filter_cons. by case_decide. }
  cbn. by rewrite Hr.
Qed.

(** C6. For a job past the dedup stage whose relay is not active, or has
    no action row, and with no storage error in the fetch: the fetch
    returns the no-actions error, which is not the relay-not-found error
    and does not wrap it; [process] returns it, the job is acknowledged
    false, and no executor is invoked. *)
Theorem no_actions_fails_job f ctx id job w :
  passes_dedup f job (engine.db w) ->
  store.GetRelayActions_Query f = None ->
  store.GetRelayActions_rows_Err f = None ->
  store.relays (engine.db w) !! engine.RelayID job <> Some (Some true) \/
  Forall (fun a => store.a_relay_id a <> engine.RelayID job)
    (store.relay_actions (engine.db w)) ->
  let w' := engine.worker_job reg f ctx id job w in
  store.GetRelayActions f ctx (engine.RelayID job) (engine.db w) = inl store.ErrNoActions /\
  store.ErrNoActions <> store.ErrRelayNotFound /\
  ~ errors_Is store.ErrNoActions store.ErrRelayNotFound /\
  fst (engine.process reg f ctx job (worker_logger id) (job_received id job w)) =
    Some store.ErrNoActions /\
  engine.acks (since w w') = [false] /\
  engine.executed (since w w') = [].
Proof.
  intros Hpass Hq Hr Hnone w'. subst w'.
  pose proof (GetRelayActions_no_rows f ctx _ _ Hq Hr Hnone) as Hfetch.
  split; [exact Hfetch|]. split; [done|]. split; [by intros [?|[]]|].
  destruct (process_passes_spec reg f ctx job (worker_logger id) (job_received id job w) Hpass)
    as (chain & Htr & _ & _ & Hcase).
  cbn [job_received engine.slog engine.emit engine.db] in Hcase.
  rewrite Hfetch in Hcase. destruct Hcase as (Herr & -> & _).
  split; [exact Herr|]. rewrite worker_job_acks, Herr. split; [done|].
  destruct (worker_job_calls reg f ctx id job w) as (-> & _).
  by rewrite (since_app _ _ _ Htr), executed_job_events.
Qed.

Lemma scan_rows_log_fault f x y i rows acc :
  store.scan_rows (with_log_fault f x) i rows acc =
  store.scan_rows (with_log_fault f y) i rows acc.
Proof.
  revert i acc. induction rows as [|row rows IH]; intros i acc; [done|].
  cbn. destruct (store.GetRelayActions_Scan f i); [done|].
  destruct (store.Unmarshal_config (store.a_config row)); [done|]. apply IH.
Qed.

Lemma fetch_and_run_log_fault f x y ctx job logger w :
  engine.fetch_and_run reg (with_log_fault f x) ctx job logger w =
  engine.fetch_and_run reg (with_log_fault f y) ctx job logger w.
Proof.
  unfold engine.fetch_and_run, store.GetRelayActions. cbn.
  by rewrite (scan_rows_log_fault f x y).
Qed.

Lemma fetch_and_run_extends f ctx job logger w :
  exists new,
    engine.trace (snd (engine.fetch_and_run reg f ctx job logger w)) = engine.trace w ++ new.
Proof.
  unfold engine.fetch_and_run.
  destruct (store.GetRelayActions _ _ _ _) as [e|actions].
  - by eexists [_].
  - destruct (run_actions_spec reg ctx job logger actions
                (engine.emit (engine.Store_GetRelayActions ctx (engine.RelayID job)) w))
      as (new & _ & -> & _).
    cbn. eexists (_ :: new). by rewrite <- app_assoc.
Qed.

(** The outcome of the log write does not reach [process] before the
    deferred function: either the job never gets there, or it gets there
    with the same error and the same world. *)
Lemma process_log_fault f ctx job logger w :
  exists err w1,
    (~ passes_dedup f job (engine.db w) /\
     forall x, engine.process reg (with_log_fault f x) ctx job logger w = (err, w1)) \/
    (passes_dedup f job (engine.db w) /\
     (exists pre, engine.trace w1 = engine.trace w ++ pre) /\
     forall x, engine.process reg (with_log_fault f x) ctx job logger w =
               (err, engine.deferred_log (with_log_fault f x) job logger err w1)).
Proof.
  destruct (dedup_cases f job (engine.db w)) as [[Hid [e He]]|[(Hid & He & Hin)|Hpass]].
  - eexists _, _. left. split.
    + intros [?|[? _]]; congruence.
    + intros x. by apply process_dedup_error.
  - eexists _, _. left. split.
    + intros [?|[_ ?]]; done.
    + intros x. by apply process_duplicate.
  - destruct (engine.fetch_and_run reg (with_log_fault f None) ctx job logger
                (after_dedup ctx job w)) as [err w1] eqn:Hrun.
    exists err, w1. right. split; [done|]. split.
    { destruct (fetch_and_run_extends (with_log_fault f None) ctx job logger
                  (after_dedup ctx job w)) as (new & Hnew).
      rewrite Hrun in Hnew. cbn in Hnew.
      destruct (after_dedup_trace ctx job w) as (Hd & _).
      rewrite Hnew, Hd. eexists. by rewrite <- app_assoc. }
    intros x.
    rewrite process_passes; [|exact Hpass].
    unfold engine.with_deferred_log.
    by rewrite (fetch_and_run_log_fault f x None), Hrun.
Qed.

(** C8. Two runs of a job that differ only in whether the audit write
    fails: [process] returns the same error, the job gets the same single
    acknowledgement, the same executors are invoked and leave the same
    world; when the job is past the dedup stage, the failed write leaves
    [execution_logs] as it was and its error goes to the worker log. *)
Theorem log_write_failure_keeps_ack f ctx id job w logErr :
  let ok := with_log_fault f None in
  let bad := with_log_fault f (Some logErr) in
  let w_ok := engine.worker_job reg ok ctx id job w in
  let w_bad := engine.worker_job reg bad ctx id job w in
  fst (engine.process reg bad ctx job (worker_logger id) (job_received id job w)) =
    fst (engine.process reg ok ctx job (worker_logger id) (job_received id job w)) /\
  engine.acks (since w w_bad) = engine.acks (since w w_ok) /\
  engine.acks (since w w_bad) =
    [ack_of (fst (engine.process reg ok ctx job (worker_logger id) (job_received id job w)))] /\
  engine.executed (since w w_bad) = engine.executed (since w w_ok) /\
  engine.ext w_bad = engine.ext w_ok /\
  (passes_dedup f job (engine.db w) ->
   store.execution_logs (engine.db w_bad) = store.execution_logs (engine.db w) /\
   engine.Slog (mkLogRecord LevelError "failed to save execution log"
                  (worker_logger id ++
                   [("error", "failed to write execution log: " +:+ Error logErr)]))
     ∈ since w w_bad).
Proof.
  intros ok bad w_ok w_bad.
  destruct (process_log_fault f ctx job (worker_logger id) (job_received id job w))
    as (err & w1 & [[Hnot Hrun]|(Hpass & [pre Hpre] & Hrun)]).
  - assert (w_bad = w_ok) as ->.
    { subst w_bad w_ok ok bad. by rewrite !worker_job_eq, !Hrun. }
    subst ok bad. rewrite !Hrun. cbn [fst].
    split; [done|]. split; [done|]. split.
    { subst w_ok. by rewrite worker_job_acks, Hrun. }
    split; [done|]. split; [done|]. intros Hp. by destruct Hnot.
  - assert (Hfst : forall x,
      fst (engine.process reg (with_log_fault f x) ctx job (worker_logger id)
             (job_received id job w)) = err) by (intros x; by rewrite Hrun).
    split; [subst ok bad; by rewrite !Hfst|].
    split; [subst w_ok w_bad ok bad; by rewrite !worker_job_acks, !Hfst|].
    split; [subst w_ok w_bad ok bad; by rewrite !worker_job_acks, !Hfst|].
    assert (Htr : forall x,
      engine.trace (snd (engine.process reg (with_log_fault f x) ctx job (worker_logger id)
                           (job_received id job w))) =
      engine.trace w1 ++ audit_events (with_log_fault f x) job (worker_logger id) err).
    { intros x. by rewrite Hrun, deferred_log_eq. }
    assert (Hsince : forall x,
      since (job_received id job w)
        (snd (engine.process reg (with_log_fault f x) ctx job (worker_logger id)
                (job_received id job w))) =
      pre ++ audit_events (with_log_fault f x) job (worker_logger id) err).
    { intros x. apply since_app. by rewrite Htr, Hpre, <- app_assoc. }
    split.
    { subst w_ok w_bad ok bad.
      destruct (worker_job_calls reg (with_log_fault f None) ctx id job w) as (-> & _).
      destruct (worker_job_calls reg (with_log_fault f (Some logErr)) ctx id job w) as (-> & _).
      rewrite !Hsince, !executed_app.
      destruct (audit_events_silent (with_log_fault f None) job (worker_logger id) err)
        as (_ & _ & -> & _).
      by destruct (audit_events_silent (with_log_fault f (Some logErr)) job
                     (worker_logger id) err) as (_ & _ & -> & _). }
    split.
    { subst w_ok w_bad ok bad.
      destruct (worker_job_since reg (with_log_fault f None) ctx id job w)
        as (_ & _ & _ & _ & ->).
      destruct (worker_job_since reg (with_log_fault f (Some logErr)) ctx id job w)
        as (_ & _ & _ & _ & ->).
      by rewrite !Hrun, !deferred_log_eq. }
    intros _. subst w_bad bad.
    destruct (worker_job_since reg (with_log_fault f (Some logErr)) ctx id job w)
      as (r0 & r1 & -> & -> & _).
    split.
    + destruct (process_passes_spec reg (with_log_fault f (Some logErr)) ctx job
                  (worker_logger id) (job_received id job w) Hpass) as (_ & _ & -> & _).
      destruct (after_dedup_trace ctx job (job_received id job w)) as (_ & _ & _ & _ & Hlogs).
      unfold audit_db, store.LogExecution. cbn. exact Hlogs.
    + rewrite Hsince. unfold audit_events. cbn.
      apply list_elem_of_further, elem_of_app. left.
      apply elem_of_app. right. set_solver.
Qed.

(** What a job invokes: nothing, or a prefix of what it fetched. *)
Lemma worker_job_executed f ctx id job w :
  engine.executed (since w (engine.worker_job reg f ctx id job w)) = [] \/
  (passes_dedup f job (engine.db w) /\
   exists actions,
     store.GetRelayActions f ctx (engine.RelayID job) (engine.db w) = inr actions /\
     engine.executed (since w (engine.worker_job reg f ctx id job w)) `prefix_of` actions /\
     (fst (engine.process reg f ctx job (worker_logger id) (job_received id job w)) = None ->
      engine.executed (since w (engine.worker_job reg f ctx id job w)) = actions)).
Proof.
  destruct (worker_job_calls reg f ctx id job w) as (-> & _).
  destruct (dedup_cases f job (engine.db (job_received id job w)))
    as [[Hid [e He]]|[(Hid & He & Hin)|Hpass]].
  - left. rewrite (process_dedup_error reg _ _ _ _ _ _ Hid He). cbn [snd].
    erewrite since_app; [|reflexivity]. done.
  - left. rewrite (process_duplicate reg _ _ _ _ _ Hid He Hin). cbn [snd].
    erewrite since_app; [|unfold engine.slog, engine.emit; cbn; by rewrite <- app_assoc].
    done.
  - destruct (process_passes_spec reg f ctx job (worker_logger id) (job_received id job w) Hpass)
      as (chain & Htr & _ & _ & Hcase).
    rewrite (since_app _ _ _ Htr), executed_job_events.
    cbn [job_received engine.slog engine.emit engine.db] in Hcase.
    destruct (store.GetRelayActions f ctx (engine.RelayID job) (engine.db w))
      as [e|actions] eqn:Hget.
    + left. by destruct Hcase as (_ & -> & _).
    + right. split; [exact Hpass|]. exists actions. by destruct Hcase.
Qed.


(** The loop over [pre ++ rest] when every action of [pre] succeeds: it
    goes on with [rest], having invoked exactly [pre]. *)
Lemma run_actions_app_succeeds ctx job logger pre rest w e1 :
  chain_succeeds reg ctx (engine.Payload job) pre (engine.ext w) = Some e1 ->
  exists new,
    Forall chain_event new /\ engine.executed new = pre /\
    engine.run_actions reg ctx job logger (pre ++ rest) w =
    engine.run_actions reg ctx job logger rest
      (engine.mkWorld (engine.db w) e1 (engine.trace w ++ new)).
Proof.
  revert w. induction pre as [|act pre IH]; intros w Hchain.
  - injection Hchain as <-. exists []. rewrite app_nil_r. by destruct w.
  - cbn in Hchain. cbn [app engine.run_actions].
    destruct (reg (store.ActionType act)) as [|executor]; [done|].
    unfold engine.slog, engine.emit. cbn.
    destruct (executor ctx (store.Config act) (engine.Payload job) (engine.ext w))
      as [[execErr|] e'] eqn:Hexec; [done|].
    match goal with |- context [engine.run_actions _ _ _ _ (pre ++ rest) ?w0] =>
      destruct (IH w0 Hchain) as (new & Hnew & Hexd & ->) end.
    cbn.
    exists ([engine.Slog (mkLogRecord LevelDebug "executing action"
                (logger ++ [("action_type", store.ActionType act);
                            ("order_index", itoa (store.OrderIndex act));
                            ("event_id", engine.EventID job)]));
             engine.Registry_Get (store.ActionType act);
             engine.Executor_Execute ctx act (engine.Payload job)] ++ new).
    split; [apply Forall_app; split; [repeat constructor|done]|].
    split; [by rewrite executed_app, Hexd|].
    by repeat rewrite <- app_assoc.
Qed.

(** [process] past the dedup stage, from the result of the loop. *)
Lemma process_passes_run f ctx job logger w actions err w2 new :
  passes_dedup f job (engine.db w) ->
  store.GetRelayActions f ctx (engine.RelayID job) (engine.db w) = inr actions ->
  engine.run_actions reg ctx job logger actions
    (engine.emit (engine.Store_GetRelayActions ctx (engine.RelayID job))
       (after_dedup ctx job w)) = (err, w2) ->
  engine.trace w2 =
    engine.trace (after_dedup ctx job w) ++
      [engine.Store_GetRelayActions ctx (engine.RelayID job)] ++ new ->
  fst (engine.process reg f ctx job logger w) = err /\
  engine.ext (snd (engine.process reg f ctx job logger w)) = engine.ext w2 /\
  since w (snd (engine.process reg f ctx job logger w)) =
    dedup_events ctx job ++ [engine.Store_GetRelayActions ctx (engine.RelayID job)] ++
      new ++ audit_events f job logger err.
Proof.
  intros Hpass Hget Hrun Htr. rewrite (process_passes reg _ _ _ _ _ Hpass).
  unfold engine.with_deferred_log, engine.fetch_and_run.
  cbn [engine.emit engine.db]. rewrite GetRelayActions_after_dedup, Hget.
  rewrite Hrun. cbn [fst snd].
  rewrite deferred_log_eq. cbn [engine.ext engine.trace].
  split; [done|]. split; [done|]. apply since_app.
  destruct (after_dedup_trace ctx job w) as (Hd & _). rewrite Htr, Hd.
  by repeat rewrite <- app_assoc.
Qed.

(** The loop at the first action that fails, after a prefix that
    succeeded. *)
Lemma run_actions_fails_at ctx job logger pre act post w e1 :
  chain_succeeds reg ctx (engine.Payload job) pre (engine.ext w) = Some e1 ->
  (forall pluginErr,
     reg (store.ActionType act) = inl pluginErr ->
     exists new,
       engine.executed new = pre /\
       engine.run_actions reg ctx job logger (pre ++ act :: post) w =
       (Some pluginErr, engine.mkWorld (engine.db w) e1 (engine.trace w ++ new))) /\
  (forall executor execErr e2,
     reg (store.ActionType act) = inr executor ->
     executor ctx (store.Config act) (engine.Payload job) e1 = (Some execErr, e2) ->
     exists new,
       engine.executed new = pre ++ [act] /\
       engine.run_actions reg ctx job logger (pre ++ act :: post) w =
       (Some (Errorf_w ("action " +:+ store.ActionType act +:+ " (order " +:+
                        itoa (store.OrderIndex act) +:+ ") failed: ") execErr),
        engine.mkWorld (engine.db w) e2 (engine.trace w ++ new))).
Proof.
  intros Hchain.
  destruct (run_actions_app_succeeds ctx job logger pre (act :: post) w e1 Hchain)
    as (new & _ & Hexd & ->).
  cbn [engine.run_actions]. unfold engine.slog, engine.emit. cbn. split.
  - intros pluginErr ->.
    eexists (new ++ [_; _]). split; [|by repeat rewrite <- app_assoc].
    rewrite executed_app, Hexd. apply app_nil_r.
  - intros executor execErr e2 -> ->.
    eexists (new ++ [_; _; _]). split; [|by repeat rewrite <- app_assoc].
    by rewrite executed_app, Hexd.
Qed.

(** C3 (as the code has it). In a job past the dedup stage whose fetched
    chain is [pre ++ act :: post], with the actions of [pre] succeeding:
    when the registry does not know the type of [act], the job's error is
    the registry's error as it is and the executors invoked are those of
    [pre]; when the executor of [act] returns an error, the job's error is
    that error under the prefix naming the action's type and order index,
    and the executors invoked are those of [pre] and of [act].  Either way
    no action of [post] is invoked and the job is acknowledged false. *)
Theorem chain_fails_fast f ctx id job w pre act post e1 :
  passes_dedup f job (engine.db w) ->
  store.GetRelayActions f ctx (engine.RelayID job) (engine.db w) = inr (pre ++ act :: post) ->
  chain_succeeds reg ctx (engine.Payload job) pre (engine.ext w) = Some e1 ->
  let w' := engine.worker_job reg f ctx id job w in
  let err := fst (engine.process reg f ctx job (worker_logger id) (job_received id job w)) in
  (forall pluginErr,
     reg (store.ActionType act) = inl pluginErr ->
     err = Some pluginErr /\
     engine.executed (since w w') = pre /\
     engine.acks (since w w') = [false] /\
     engine.ext w' = e1) /\
  (forall executor execErr e2,
     reg (store.ActionType act) = inr executor ->
     executor ctx (store.Config act) (engine.Payload job) e1 = (Some execErr, e2) ->
     err = Some (Errorf_w ("action " +:+ store.ActionType act +:+ " (order " +:+
                           itoa (store.OrderIndex act) +:+ ") failed: ") execErr) /\
     Error <$> err =
       Some (("action " +:+ store.ActionType act +:+ " (order " +:+
              itoa (store.OrderIndex act) +:+ ") failed: ") +:+ Error execErr) /\
     engine.executed (since w w') = pre ++ [act] /\
     engine.acks (since w w') = [false] /\
     engine.ext w' = e2).
Proof.
  intros Hpass Hget Hchain w' err. subst w' err.
  set (w0 := job_received id job w).
  set (wf := engine.emit (engine.Store_GetRelayActions ctx (engine.RelayID job))
               (after_dedup ctx job w0)).
  assert (Hext : engine.ext wf = engine.ext w).
  { subst wf. cbn. by destruct (after_dedup_trace ctx job w0) as (_ & -> & _). }
  rewrite <- Hext in Hchain.
  destruct (run_actions_fails_at ctx job (worker_logger id) pre act post wf e1 Hchain)
    as [Hplugin Hexec].
  assert (Hfinish : forall e e' new,
    engine.run_actions reg ctx job (worker_logger id) (pre ++ act :: post) wf =
      (Some e, engine.mkWorld (engine.db wf) e' (engine.trace wf ++ new)) ->
    fst (engine.process reg f ctx job (worker_logger id) w0) = Some e /\
    engine.executed (since w (engine.worker_job reg f ctx id job w)) = engine.executed new /\
    engine.acks (since w (engine.worker_job reg f ctx id job w)) = [false] /\
    engine.ext (engine.worker_job reg f ctx id job w) = e').
  { intros e e' new Hrun.
    destruct (process_passes_run f ctx job (worker_logger id) w0 (pre ++ act :: post)
                (Some e) _ new Hpass Hget Hrun) as (Herr & Hext' & Hsince).
    { subst wf. cbn. by rewrite <- app_assoc. }
    split; [exact Herr|].
    destruct (worker_job_calls reg f ctx id job w) as (-> & _).
    destruct (worker_job_since reg f ctx id job w) as (_ & _ & _ & _ & ->).
    fold w0. rewrite worker_job_acks. fold w0.
    by rewrite Herr, Hsince, Hext', executed_job_events. }
  split.
  - intros pluginErr Hreg. destruct (Hplugin pluginErr Hreg) as (new & Hexd & Hrun).
    destruct (Hfinish _ _ _ Hrun) as (? & ? & ? & ?). by rewrite <- Hexd.
  - intros executor execErr e2 Hreg Hexecutor.
    destruct (Hexec executor execErr e2 Hreg Hexecutor) as (new & Hexd & Hrun).
    destruct (Hfinish _ _ _ Hrun) as (Herr & ? & ? & ?).
    rewrite Herr. repeat split; try done. by rewrite <- Hexd.
Qed.

(** A job with an event id starts with the insert of its marker. *)
Lemma process_registers_first f ctx job logger w :
  engine.EventID job <> "" ->
  exists rest,
    since w (snd (engine.process reg f ctx job logger w)) =
    engine.Store_RegisterEvent ctx (engine.RelayID job) (engine.EventID job) :: rest.
Proof.
  intros Hid.
  destruct (dedup_cases f job (engine.db w)) as [[_ [e He]]|[(_ & He & Hin)|Hpass]].
  - rewrite (process_dedup_error reg _ _ _ _ _ _ Hid He). cbn [snd].
    exists []. by apply since_app.
  - rewrite (process_duplicate reg _ _ _ _ _ Hid He Hin). cbn [snd].
    eexists [_]. apply since_app. unfold engine.slog, engine.emit. cbn.
    by rewrite <- app_assoc.
  - destruct (process_passes_spec reg f ctx job logger w Hpass) as (chain & Htr & _).
    rewrite (since_app _ _ _ Htr). unfold dedup_events.
    case_decide; [done|]. by eexists.
Qed.

End EngineClaims.

(** ** The webhook ingestion handler *)

Lemma hex_digit_cons n : exists c, api.hex_digit n = String c EmptyString.
Proof. unfold api.hex_digit. destruct (String.get _ _); eauto. Qed.

Lemma uuid_String_nonempty u : api.uuid_String u <> "".
Proof.
  unfold api.uuid_String, api.hex_bytes. cbn [seq foldr]. unfold api.hex_byte at 1.
  destruct (hex_digit_cons ((u 0%nat `mod` 256) `div` 16)) as [c ->]. discriminate.
Qed.

(** The id the handler settles on is the header value, else the query
    value, else the UUID text, and is never empty. *)
Lemma event_id_of_cases (random : nat -> Z) (r : api.Request) :
  api.event_id_of random r <> "" /\
  api.event_id_of random r =
    (let header := api.first_value (api.Header r) "X-Event-Id" in
     let query := api.first_value (api.URL_Query r) "event_id" in
     if decide (header <> "") then header
     else if decide (query <> "") then query
     else api.uuid_String (api.uuid_New random)).
Proof.
  unfold api.event_id_of. cbv zeta.
  destruct (decide (api.first_value (api.Header r) "X-Event-Id" = "")) as [Hh|Hh].
  - rewrite (decide_False (P := _ <> _)); [|by intros ?].
    destruct (decide (api.first_value (api.URL_Query r) "event_id" = "")) as [Hq|Hq].
    + rewrite (decide_False (P := _ <> _)); [|by intros ?].
      split; [apply uuid_String_nonempty|done].
    + by rewrite (decide_True (P := _ <> _)).
  - rewrite (decide_False (P := _ = _)); [|done].
    by rewrite (decide_True (P := _ <> _)).
Qed.

(** With a relay id and a body read without error, the handler calls
    [Publish] once, with this event. *)
Lemma HandleWebhook_publishes (producer : api.EventProducer) (random : nat -> Z)
    (now : Z) (r : api.Request) :
  api.chi_URLParam r "relayID" <> "" ->
  (api.ReadAll (api.LimitReader (api.Body r) 1048576)).2 = None ->
  api.published (api.HandleWebhook producer random now r) =
    [(api.chi_URLParam r "relayID",
      api.mkExecutionEvent (api.event_id_of random r) (api.chi_URLParam r "relayID")
        (api.limit_bytes (api.data (api.Body r)) 1048576) now)].
Proof.
  intros Hrelay Hread. unfold api.HandleWebhook. cbv zeta.
  rewrite decide_False by done.
  destruct (api.ReadAll _) as [body [err|]] eqn:Hall; [done|].
  assert (body = api.limit_bytes (api.data (api.Body r)) 1048576) as ->.
  { unfold api.ReadAll, api.LimitReader in Hall. cbn in Hall. congruence. }
  by destruct (producer _ _).
Qed.

(** Without relay id, or when reading the body fails, it does not call
    [Publish]. *)
Lemma HandleWebhook_refuses (producer : api.EventProducer) (random : nat -> Z)
    (now : Z) (r : api.Request) :
  api.chi_URLParam r "relayID" = "" \/
  (api.ReadAll (api.LimitReader (api.Body r) 1048576)).2 <> None ->
  api.published (api.HandleWebhook producer random now r) = [].
Proof.
  intros Hno. unfold api.HandleWebhook. cbv zeta.
  destruct (decide (api.chi_URLParam r "relayID" = "")); [done|].
  destruct Hno as [?|Hread]; [done|].
  by destruct (api.ReadAll _) as [body [err|]].
Qed.

Lemma HandleWebhook_published_cases (producer : api.EventProducer) (random : nat -> Z)
    (now : Z) (r : api.Request) :
  (api.published (api.HandleWebhook producer random now r) = [] /\
   (api.chi_URLParam r "relayID" = "" \/
    (api.ReadAll (api.LimitReader (api.Body r) 1048576)).2 <> None)) \/
  (api.published (api.HandleWebhook producer random now r) =
     [(api.chi_URLParam r "relayID",
       api.mkExecutionEvent (api.event_id_of random r) (api.chi_URLParam r "relayID")
         (api.limit_bytes (api.data (api.Body r)) 1048576) now)] /\
   api.chi_URLParam r "relayID" <> "" /\
   (api.ReadAll (api.LimitReader (api.Body r) 1048576)).2 = None).
Proof.
  destruct (decide (api.chi_URLParam r "relayID" = "")) as [Hrelay|Hrelay].
  { left. split; [|by left]. apply HandleWebhook_refuses. by left. }
  destruct ((api.ReadAll (api.LimitReader (api.Body r) 1048576)).2) as [err|] eqn:Hread.
  { left. split; [|by right]. apply HandleWebhook_refuses. right. by rewrite Hread. }
  right. split; [|done]. by apply HandleWebhook_publishes.
Qed.

(** C9. A request that has a relay id and whose body is read without error
    makes [HandleWebhook] publish one event, and whatever it publishes
    carries a non-empty event id: the first [X-Event-ID] header value when
    that is not empty, else the first [event_id] query value when that is
    not empty, else the text of a fresh UUID.  A job carrying the relay id,
    event id and payload of such an event starts [process] with the insert
    of its dedup marker. *)
Theorem HandleWebhook_event_id (producer : api.EventProducer) (random : nat -> Z)
    (now : Z) (r : api.Request) :
  let out := api.HandleWebhook producer random now r in
  let relayID := api.chi_URLParam r "relayID" in
  let id :=
    (let header := api.first_value (api.Header r) "X-Event-Id" in
     let query := api.first_value (api.URL_Query r) "event_id" in
     if decide (header <> "") then header
     else if decide (query <> "") then query
     else api.uuid_String (api.uuid_New random)) in
  id <> "" /\
  (relayID <> "" ->
   (api.ReadAll (api.LimitReader (api.Body r) 1048576)).2 = None ->
   exists ev, api.published out = [(relayID, ev)] /\ api.EventID ev = id) /\
  Forall (fun p : string * api.ExecutionEvent =>
            api.EventID p.2 <> "" /\
            api.EventID p.2 = id /\
            forall (E : Type) (reg : engine.Registry E) (f : store.Faults) (ctx : Context)
                   (logger : list (string * string)) (w : engine.World E),
            exists rest,
              since w (snd (engine.process reg f ctx
                              (engine.mkJob (api.RelayID p.2) (api.EventID p.2) (api.Payload p.2))
                              logger w)) =
              engine.Store_RegisterEvent ctx (api.RelayID p.2) (api.EventID p.2) :: rest)
         (api.published out).
Proof.
  intros out relayID id. subst out relayID id. cbv zeta.
  destruct (event_id_of_cases random r) as [Hne Hid]. cbv zeta in Hid.
  rewrite <- Hid. split; [done|].
  split.
  { intros Hrelay Hread. eexists. split; [by apply HandleWebhook_publishes|].
    reflexivity. }
  destruct (HandleWebhook_published_cases producer random now r) as [[-> _]|[-> _]];
    [constructor|].
  constructor; [|constructor].
  cbn [snd api.EventID api.RelayID api.Payload].
  split; [done|]. split; [done|].
  intros E reg f ctx logger w.
  by apply (process_registers_first reg f ctx
              (engine.mkJob (api.chi_URLParam r "relayID") (api.event_id_of random r)
                 (api.limit_bytes (api.data (api.Body r)) 1048576))).
Qed.

Lemma HandleWebhook_event_id_witness :
  (exists ev,
     api.published
       (api.HandleWebhook examples.accepting (fun _ => 0) 1700000000
          (examples.webhook examples.relay_R (examples.whole examples.payload_x1)
             ["evt-1"] ["q-7"])) = [(examples.relay_R, ev)] /\
     api.EventID ev = "evt-1") /\
  (exists ev,
     api.published
       (api.HandleWebhook examples.accepting (fun _ => 0) 1700000000
          (examples.webhook examples.relay_R (examples.whole examples.payload_x1)
             [""] ["q-7"])) = [(examples.relay_R, ev)] /\
     api.EventID ev = "q-7") /\
  (exists ev,
     api.published
       (api.HandleWebhook examples.broker_down (fun _ => 0) 1700000000
          (examples.webhook examples.relay_R (examples.whole examples.payload_x1)
             [] [])) = [(examples.relay_R, ev)] /\
     api.EventID ev = "00000000-0000-4000-8000-000000000000").
Proof.
  split_and!.
  - destruct (HandleWebhook_event_id examples.accepting (fun _ => 0) 1700000000
                (examples.webhook examples.relay_R (examples.whole examples.payload_x1)
                   ["evt-1"] ["q-7"])) as (_ & Hpub & _).
    destruct Hpub as (ev & Hev & Hid); [by vm_compute|by vm_compute|].
    exists ev. split; [exact Hev|]. rewrite Hid. by vm_compute.
  - destruct (HandleWebhook_event_id examples.accepting (fun _ => 0) 1700000000
                (examples.webhook examples.relay_R (examples.whole examples.payload_x1)
                   [""] ["q-7"])) as (_ & Hpub & _).
    destruct Hpub as (ev & Hev & Hid); [by vm_compute|by vm_compute|].
    exists ev. split; [exact Hev|]. rewrite Hid. by vm_compute.
  - destruct (HandleWebhook_event_id examples.broker_down (fun _ => 0) 1700000000
                (examples.webhook examples.relay_R (examples.whole examples.payload_x1)
                   [] [])) as (_ & Hpub & _).
    destruct Hpub as (ev & Hev & Hid); [by vm_compute|by vm_compute|].
    exists ev. split; [exact Hev|]. rewrite Hid. by vm_compute.
Defined.


(** ** The engine on concrete jobs *)

(** C1. The job of relay [relay_R], event [E1] and payload [{"x":1}] on a
    relay with one Slack action makes one audit write, under a context of
    its own with a 3s timeout; but the row it writes has the status text
    in [event_id], the detail text in [status] and the event id in
    [error_message], on success (endpoint answering 200) and on failure
    (endpoint answering 503) alike. *)
Theorem audit_row_fields_transposed :
  let ctx := WithCancel Background in
  let run := fun net =>
    engine.worker_job examples.slack_registry store.no_faults ctx 0 examples.job_E1
      (examples.world_of examples.db_one net) in
  engine.log_calls (engine.trace (run examples.ok200)) =
    [(WithTimeout Background (3 * Second),
      (examples.relay_R, "success", "Relay executed successfully", "E1",
       examples.payload_x1))] /\
  store.execution_logs (engine.db (run examples.ok200)) =
    [store.mkLogRow examples.relay_R "success" "Relay executed successfully"
       (Some examples.payload_x1) (Some "E1")] /\
  store.execution_logs (engine.db (run examples.always503)) =
    [store.mkLogRow examples.relay_R "failed"
       ("action slack_send (order 1) failed: " +:+
        "slack send failed after retries: slack returned 503")
       (Some examples.payload_x1) (Some "E1")] /\
  engine.acks (engine.trace (run examples.always503)) = [false].
Proof. vm_compute. done. Qed.

(** C3, as stated, fails: with an unregistered action type at order 2 the
    job's error is the registry's own, the same as with that action at
    order 5, and its text holds no order index. *)
Lemma unknown_type_error_lacks_order_index :
  let run := fun order =>
    fst (engine.process examples.slack_registry store.no_faults (WithCancel Background)
           examples.job_E1 (worker_logger 0)
           (examples.world_of (examples.db_unknown_at order) examples.ok200)) in
  inl <$> run 2 = Some (examples.slack_registry "nope") /\
  Error <$> run 2 = Some "unknown action type: nope" /\
  run 5 = run 2 /\
  strings_Contains "unknown action type: nope" (itoa 2) = false /\
  strings_Contains "unknown action type: nope" "order" = false.
Proof. vm_compute. done. Qed.

Lemma dedup_storage_error_fails_job_witness :
  let w := examples.world_of examples.db_one examples.ok200 in
  let w' := engine.worker_job examples.slack_registry examples.dedup_down
              (WithCancel Background) 0 examples.job_E1 w in
  fst (engine.process examples.slack_registry examples.dedup_down (WithCancel Background)
         examples.job_E1 (worker_logger 0) (job_received 0 examples.job_E1 w)) =
    Some (Errorf_w "dedupe insert failed: " (errors_New "connection refused")) /\
  engine.acks (since w w') = [false] /\
  engine.log_calls (since w w') = [] /\
  engine.fetch_calls (since w w') = [] /\
  engine.executed (since w w') = [] /\
  engine.db w' = engine.db w /\
  engine.ext w' = engine.ext w.
Proof.
  intros w w'.
  apply (dedup_storage_error_fails_job examples.slack_registry examples.dedup_down
           (WithCancel Background) 0 examples.job_E1 w (errors_New "connection refused")).
  - discriminate.
  - reflexivity.
Defined.

Lemma duplicate_delivery_is_skipped_witness :
  let w := examples.world_of examples.db_one examples.ok200 in
  let w1 := engine.worker_job examples.slack_registry store.no_faults
              (WithCancel Background) 0 examples.job_E1 w in
  let w2 := engine.worker_job examples.slack_registry store.no_faults
              (WithCancel Background) 1 examples.job_E1 w1 in
  (engine.acks (since w w1) = [true] /\
   length (engine.executed (since w w1)) = 1%nat /\
   length (store.execution_logs (engine.db w1)) = 1%nat) /\
  fst (engine.process examples.slack_registry store.no_faults (WithCancel Background)
         examples.job_E1 (worker_logger 1) (job_received 1 examples.job_E1 w1)) = None /\
  engine.acks (since w1 w2) = [true] /\
  engine.executed (since w1 w2) = [] /\
  engine.log_calls (since w1 w2) = [] /\
  engine.fetch_calls (since w1 w2) = [] /\
  engine.db w2 = engine.db w1 /\
  engine.ext w2 = engine.ext w1.
Proof.
  intros w w1 w2. split; [by vm_compute|].
  apply (duplicate_delivery_is_skipped examples.slack_registry store.no_faults store.no_faults
           (WithCancel Background) (WithCancel Background) 0 1 examples.job_E1 w).
  - discriminate.
  - reflexivity.
  - reflexivity.
Defined.

Lemma no_actions_fails_job_witness :
  let w := examples.world_of examples.db_empty_relay examples.ok200 in
  (fst (engine.process examples.slack_registry store.no_faults (WithCancel Background)
          examples.job_E1 (worker_logger 0) (job_received 0 examples.job_E1 w)) =
     Some store.ErrNoActions /\
   engine.acks (since w (engine.worker_job examples.slack_registry store.no_faults
                           (WithCancel Background) 0 examples.job_E1 w)) = [false]) /\
  (fst (engine.process examples.slack_registry store.no_faults (WithCancel Background)
          examples.job_inactive (worker_logger 0) (job_received 0 examples.job_inactive w)) =
     Some store.ErrNoActions /\
   engine.acks (since w (engine.worker_job examples.slack_registry store.no_faults
                           (WithCancel Background) 0 examples.job_inactive w)) = [false]).
Proof.
  intros w. split.
  - destruct (no_actions_fails_job examples.slack_registry store.no_faults
                (WithCancel Background) 0 examples.job_E1 w)
      as (_ & _ & _ & Herr & Hack & _).
    + right. split; [reflexivity|]. apply not_elem_of_empty.
    + reflexivity.
    + reflexivity.
    + right. constructor; [|constructor]. discriminate.
    + split; [exact Herr|exact Hack].
  - destruct (no_actions_fails_job examples.slack_registry store.no_faults
                (WithCancel Background) 0 examples.job_inactive w)
      as (_ & _ & _ & Herr & Hack & _).
    + right. split; [reflexivity|]. apply not_elem_of_empty.
    + reflexivity.
    + reflexivity.
    + left. vm_compute. discriminate.
    + split; [exact Herr|exact Hack].
Defined.

Lemma log_write_failure_keeps_ack_witness :
  let w := examples.world_of examples.db_one examples.ok200 in
  let w_bad := engine.worker_job examples.slack_registry
                 (with_log_fault store.no_faults (Some (errors_New "connection reset")))
                 (WithCancel Background) 0 examples.job_E1 w in
  engine.acks (since w w_bad) = [true] /\
  store.execution_logs (engine.db w_bad) = [] /\
  engine.Slog (mkLogRecord LevelError "failed to save execution log"
                 (worker_logger 0 ++
                  [("error", "failed to write execution log: connection reset")]))
    ∈ since w w_bad.
Proof.
  intros w w_bad.
  destruct (log_write_failure_keeps_ack examples.slack_registry store.no_faults
              (WithCancel Background) 0 examples.job_E1 w (errors_New "connection reset"))
    as (_ & _ & Hack & _ & _ & Hpast).
  destruct Hpast as [Hlogs Hin].
  { right. split; [reflexivity|]. apply not_elem_of_empty. }
  split; [exact Hack|]. split; [exact Hlogs|exact Hin].
Defined.


Lemma chain_fails_fast_witness :
  let ctx := WithCancel Background in
  let w := examples.world_of examples.db_three
             (examples.scripted [slack.Response 200; slack.Response 400]) in
  let w' := engine.worker_job examples.slack_registry store.no_faults ctx 0
              examples.job_E1 w in
  let u := examples.world_of (examples.db_unknown_at 2) examples.ok200 in
  let u' := engine.worker_job examples.slack_registry store.no_faults ctx 0
              examples.job_E1 u in
  (fst (engine.process examples.slack_registry store.no_faults ctx examples.job_E1
          (worker_logger 0) (job_received 0 examples.job_E1 w)) =
     Some (Errorf_w "action slack_send (order 2) failed: "
             (errors_New "slack returned non-retryable status 400")) /\
   engine.executed (since w w') = [examples.slack_action 1; examples.slack_action 2] /\
   engine.acks (since w w') = [false]) /\
  (fst (engine.process examples.slack_registry store.no_faults ctx examples.job_E1
          (worker_logger 0) (job_received 0 examples.job_E1 u)) =
     Some (errors_New "unknown action type: nope") /\
   engine.executed (since u u') = [examples.slack_action 1] /\
   engine.acks (since u u') = [false]).
Proof.
  intros ctx w w' u u'. split.
  - edestruct (chain_fails_fast examples.slack_registry store.no_faults ctx 0
                 examples.job_E1 w [examples.slack_action 1] (examples.slack_action 2)
                 [examples.slack_action 3]) as [_ Hexec].
    + right. split; [reflexivity|]. apply not_elem_of_empty.
    + by vm_compute.
    + vm_compute. reflexivity.
    + edestruct (Hexec (slack.Execute slack.New)) as (Herr & _ & Hexd & Hack & _).
      * by vm_compute.
      * vm_compute. reflexivity.
      * split; [exact Herr|]. split; [exact Hexd|exact Hack].
  - edestruct (chain_fails_fast examples.slack_registry store.no_faults ctx 0
                 examples.job_E1 u [examples.slack_action 1]
                 (store.mkRelayAction 2 "nope" ∅)
                 [examples.slack_action 9]) as [Hplugin _].
    + right. split; [reflexivity|]. apply not_elem_of_empty.
    + by vm_compute.
    + vm_compute. reflexivity.
    + edestruct (Hplugin (errors_New "unknown action type: nope"))
        as (Herr & Hexd & Hack & _).
      * by vm_compute.
      * split; [exact Herr|]. split; [exact Hexd|exact Hack].
Defined.

(** ** More on the Slack executor *)

(** X1. A configuration without a usable [webhook_url] (absent, empty, or
    not a string) is refused before anything is sent: [Execute] returns
    the missing-URL error and the network is untouched. *)
Theorem Execute_missing_webhook_url (s : slack.Sender) (ctx : Context)
    (cfg : map_string_any) (payload : string) (w : slack.World) :
  cfg !! "webhook_url" = None \/
  cfg !! "webhook_url" = Some (VString "") \/
  (exists v, cfg !! "webhook_url" = Some v /\ forall t, v <> VString t) ->
  slack.Execute s ctx cfg payload w =
  (Some (errors_New "missing webhook_url in slack action config"), w).
Proof.
  intros Hcfg. unfold slack.Execute.
  assert (string_at cfg "webhook_url" = "") as ->; [|done].
  unfold string_at. destruct Hcfg as [-> | [-> | (v & -> & Hv)]]; [done|done|].
  destruct v; try done. by destruct (Hv s0).
Qed.

Lemma Execute_missing_webhook_url_witness :
  slack.Execute slack.New Background examples.numeric_url_cfg examples.payload_x1
    examples.ok200 =
  (Some (errors_New "missing webhook_url in slack action config"), examples.ok200) /\
  slack.Execute slack.New Background ∅ examples.payload_x1 examples.always503 =
  (Some (errors_New "missing webhook_url in slack action config"), examples.always503).
Proof.
  split.
  - apply Execute_missing_webhook_url. right. right.
    exists (VNumber "42"). split; [reflexivity|]. intros t. discriminate.
  - apply Execute_missing_webhook_url. left. reflexivity.
Defined.

Lemma errors_Is_refl (e : error) : errors_Is e e.
Proof. destruct e; by left. Qed.

Lemma errors_Is_wrapped (prefix : string) (e : error) : errors_Is (Errorf_w prefix e) e.
Proof. right. apply errors_Is_refl. Qed.

(** X2. When no request can be built for the configured URL, [Execute]
    returns that error under the prefix [build request: ], still wrapping
    it, without a single POST or sleep. *)
Theorem Execute_build_request_error (s : slack.Sender) (ctx : Context)
    (cfg : map_string_any) (payload : string) (w : slack.World) (reqErr : error) :
  string_at cfg "webhook_url" <> "" ->
  slack.NewRequest_err w (string_at cfg "webhook_url") = Some reqErr ->
  slack.Execute s ctx cfg payload w = (Some (Errorf_w "build request: " reqErr), w) /\
  errors_Is (Errorf_w "build request: " reqErr) reqErr.
Proof.
  intros Hurl Hreq. unfold slack.Execute. case_decide; [done|].
  cbn [slack.send_loop]. rewrite Hreq. split; [done|]. apply errors_Is_wrapped.
Qed.

Lemma Execute_build_request_error_witness :
  slack.Execute slack.New Background examples.hook_cfg examples.payload_x1
    examples.unusable_url =
  (Some (Errorf_w "build request: "
           (errors_New "parse http://mock.local/hook: invalid URI")),
   examples.unusable_url).
Proof.
  apply (Execute_build_request_error slack.New Background examples.hook_cfg
           examples.payload_x1 examples.unusable_url).
  - by vm_compute.
  - reflexivity.
Defined.

Lemma posts_app (l k : list slack.Event) : posts (l ++ k) = posts l ++ posts k.
Proof. apply omap_app. Qed.

Lemma sleeps_app (l k : list slack.Event) : sleeps (l ++ k) = sleeps l ++ sleeps k.
Proof. apply omap_app. Qed.

Lemma total_app (l k : list Z) : total (l ++ k) = total l + total k.
Proof. unfold total. induction l as [|x l IH]; cbn; [done|]. rewrite IH. lia. Qed.

(** The loop makes at most one request per attempt and sleeps at most the
    backoff of every attempt. *)
Lemma send_loop_bounds s ctx url body attempts lastErr w :
  Forall (fun a => 0 <= a) attempts ->
  exists new,
    slack.events (snd (slack.send_loop s ctx url body attempts lastErr w)) =
      slack.events w ++ new /\
    (length (posts new) <= length attempts)%nat /\
    slack.n_Do (snd (slack.send_loop s ctx url body attempts lastErr w)) =
      (length (posts new) + slack.n_Do w)%nat /\
    0 <= total (sleeps new) <=
      total ((fun a => 200 * (a + 1) * Millisecond) <$> attempts).
Proof.
  intros Hpos. revert lastErr w.
  induction Hpos as [|attempt rest Ha Hrest IH]; intros lastErr w.
  - exists []. cbn. rewrite app_nil_r. unfold total. cbn. split_and!; (done || lia).
  - assert (Hrest0 : 0 <= total ((fun a => 200 * (a + 1) * Millisecond) <$> rest)).
    { pose proof (IH lastErr w) as (new0 & _ & _ & _ & ?). lia. }
    cbn [slack.send_loop]. rewrite fmap_cons. change (total (?x :: ?l)) with (x + total l).
    set (backoffs := total ((fun a => 200 * (a + 1) * Millisecond) <$> rest)) in *.
    unfold Millisecond.
    destruct (slack.NewRequest_err w url).
    { exists []. cbn. rewrite app_nil_r. unfold total. cbn. split_and!; (done || lia). }
    unfold slack.client_Do.
    set (p := slack.Post ctx url "application/json" body (slack.client_Timeout s)).
    set (w1 := slack.emit (slack.Sleep (200 * (attempt + 1) * 1000000))
             (slack.mkWorld (slack.NewRequest_err w) (slack.Do_result w)
                (S (slack.n_Do w)) (slack.events w ++ [p]))).
    assert (Hretry : forall e,
      exists new,
        slack.events (snd (slack.send_loop s ctx url body rest e w1)) =
          slack.events w ++ new /\
        (length (posts new) <= S (length rest))%nat /\
        slack.n_Do (snd (slack.send_loop s ctx url body rest e w1)) =
          (length (posts new) + slack.n_Do w)%nat /\
        0 <= total (sleeps new) <= 200 * (attempt + 1) * 1000000 + backoffs).
    { intros e. destruct (IH e w1) as (new & Hev & Hlen & Hn & Hsleep).
      exists ([p; slack.Sleep (200 * (attempt + 1) * 1000000)] ++ new).
      rewrite Hev, Hn, posts_app, sleeps_app, total_app, length_app.
      subst w1. cbn. split; [by repeat rewrite <- app_assoc|].
      split_and!; lia. }
    destruct (slack.Do_result w (slack.n_Do w)) as [e|code]; [apply Hretry|].
    case_decide; [apply Hretry|].
    exists [p]. unfold total. cbn.
    repeat case_decide; cbn; split_and!; (done || lia).
Qed.

(** X3. Whatever the endpoint does, one [Execute] makes at most three
    calls of [client.Do], each the same POST (the configured URL, content
    type [application/json], the caller's context, the client's timeout),
    and sleeps at most 1.2s in all; it adds nothing else. *)
Theorem Execute_attempts_bounded (s : slack.Sender) (ctx : Context)
    (cfg : map_string_any) (payload : string) (w : slack.World) :
  exists new,
    slack.events (snd (slack.Execute s ctx cfg payload w)) = slack.events w ++ new /\
    Forall (fun e => e = slack_post s ctx cfg payload \/ exists d, e = slack.Sleep d) new /\
    (length (posts new) <= 3)%nat /\
    slack.n_Do (snd (slack.Execute s ctx cfg payload w)) =
      (length (posts new) + slack.n_Do w)%nat /\
    0 <= total (sleeps new) <= 1200 * Millisecond.
Proof.
  unfold slack.Execute. case_decide.
  { exists []. cbn. rewrite app_nil_r. unfold total, Millisecond. cbn.
    repeat split; try done; try constructor; lia. }
  set (body := {[ "text" := VString (slack.message_text cfg payload) ]} : map_string_any).
  destruct (send_loop_bounds s ctx (string_at cfg "webhook_url") body [0; 1; 2] None w)
    as (new & Hev & Hlen & Hn & Hsleep).
  { repeat constructor; lia. }
  destruct (send_loop_events s ctx (string_at cfg "webhook_url") body [0; 1; 2] None w)
    as (new' & Hev' & Hall).
  assert (new' = new) as -> by (rewrite Hev in Hev'; by apply app_inv_head in Hev').
  exists new. split; [done|]. split; [exact Hall|]. split; [exact Hlen|].
  split; [exact Hn|]. unfold total, Millisecond in *. cbn in Hsleep. lia.
Qed.

(** The loop returns nil only through a 2xx response that follows
    retryable outcomes. *)
Lemma send_loop_nil s ctx url body attempts lastErr w :
  fst (slack.send_loop s ctx url body attempts lastErr w) = None ->
  slack.NewRequest_err w url = None /\
  exists (k : nat) (code : Z),
    (k < length attempts)%nat /\
    (forall i, (i < k)%nat -> retryable (slack.Do_result w (i + slack.n_Do w)%nat)) /\
    slack.Do_result w (k + slack.n_Do w)%nat = slack.Response code /\
    200 <= code < 300.
Proof.
  revert lastErr w. induction attempts as [|attempt rest IH]; intros lastErr w; [done|].
  cbn [slack.send_loop].
  destruct (slack.NewRequest_err w url) eqn:Hreq; [done|].
  unfold slack.client_Do.
  assert (Hretry : forall e,
    retryable (slack.Do_result w (slack.n_Do w)) ->
    fst (slack.send_loop s ctx url body rest e
           (slack.emit (slack.Sleep (200 * (attempt + 1) * Millisecond))
              (slack.mkWorld (slack.NewRequest_err w) (slack.Do_result w)
                 (S (slack.n_Do w))
                 (slack.events w ++
                    [slack.Post ctx url "application/json" body (slack.client_Timeout s)])))) =
      None ->
    None = None (A := error) /\
    exists (k : nat) (code : Z),
      (k < S (length rest))%nat /\
      (forall i, (i < k)%nat -> retryable (slack.Do_result w (i + slack.n_Do w)%nat)) /\
      slack.Do_result w (k + slack.n_Do w)%nat = slack.Response code /\
      200 <= code < 300).
  { intros e Hr Hnil. split; [done|].
    destruct (IH _ _ Hnil) as (_ & k & code & Hk & Hpre & Hdo & Hcode). cbn in Hpre, Hdo.
    exists (S k), code. split; [lia|]. split; [|split; [|done]].
    - intros [|i] Hi; [exact Hr|].
      specialize (Hpre i ltac:(lia)). by rewrite Nat.add_succ_r in Hpre.
    - by rewrite Nat.add_succ_r in Hdo. }
  destruct (slack.Do_result w (slack.n_Do w)) as [e|code] eqn:Hdo.
  - intros Hnil. exact (Hretry _ I Hnil).
  - case_decide as Hre; [intros Hnil; exact (Hretry _ Hre Hnil)|].
    case_decide as Hok; [|done]. intros _. split; [done|].
    exists 0%nat, code. split; [cbn; lia|]. split; [intros i Hi; lia|]. split; [done|lia].
Qed.

(** X4. [Execute] returns nil exactly when the URL is usable and, within
    its three attempts, a response with a status from 200 to 299 follows
    nothing but retryable outcomes. *)
Theorem Execute_nil_iff (s : slack.Sender) (ctx : Context) (cfg : map_string_any)
    (payload : string) (w : slack.World) :
  fst (slack.Execute s ctx cfg payload w) = None <->
  string_at cfg "webhook_url" <> "" /\
  slack.NewRequest_err w (string_at cfg "webhook_url") = None /\
  exists (k : nat) (code : Z),
    (k < 3)%nat /\
    (forall i, (i < k)%nat -> retryable (slack.Do_result w (i + slack.n_Do w)%nat)) /\
    slack.Do_result w (k + slack.n_Do w)%nat = slack.Response code /\
    200 <= code < 300.
Proof.
  unfold slack.Execute. split.
  - case_decide as Hurl; [done|]. intros Hnil.
    destruct (send_loop_nil _ _ _ _ _ _ _ Hnil) as (Hreq & Hk). done.
  - intros (Hurl & Hreq & k & code & Hk & Hpre & Hdo & Hcode).
    case_decide; [done|].
    assert (Hnot : ~ (code = 429 \/ code >= 500)) by lia.
    destruct k as [|[|[|k]]]; [| | |lia].
    + erewrite send_loop_final; [|done..]. cbn. case_decide; [done|lia].
    + rewrite send_loop_retry; [|done|by apply (Hpre 0%nat); lia].
      erewrite send_loop_final; [|done..]. cbn. case_decide; [done|lia].
    + rewrite send_loop_retry; [|done|by apply (Hpre 0%nat); lia].
      rewrite send_loop_retry; [|done|by apply (Hpre 1%nat); lia].
      erewrite send_loop_final; [|done..]. cbn. case_decide; [done|lia].
Qed.

(** ** More on the store *)

Lemma RegisterEvent_ok (f : store.Faults) (ctx : Context) (relayID eventID : string)
    (d : store.DB) :
  eventID <> "" ->
  store.RegisterEvent_Exec f = None ->
  store.RegisterEvent f ctx relayID eventID d =
  if decide ((relayID, eventID) ∈ store.processed_events d) then ((false, None), d)
  else ((true, None),
        store.mkDB (store.relays d) (store.relay_actions d)
          ({[ (relayID, eventID) ]} ∪ store.processed_events d) (store.execution_logs d)).
Proof.
  intros Hid Hf. unfold store.RegisterEvent. rewrite decide_False by done. by rewrite Hf.
Qed.

(** X5. Absent storage errors, [RegisterEvent] for a non-empty event id
    reports new exactly when the pair has no marker yet, and a second call
    for the same pair reports not-new and changes nothing.  Afterwards the
    markers are the old ones and this pair, so any other pair without a
    marker (the same event id under another relay, say) is still new; the
    other tables are untouched. *)
Theorem RegisterEvent_claims_once (f f' : store.Faults) (ctx ctx' : Context)
    (relayID eventID : string) (d : store.DB) :
  eventID <> "" ->
  store.RegisterEvent_Exec f = None ->
  store.RegisterEvent_Exec f' = None ->
  let r := store.RegisterEvent f ctx relayID eventID d in
  fst r = (bool_decide ((relayID, eventID) ∉ store.processed_events d), None) /\
  store.RegisterEvent f' ctx' relayID eventID (snd r) = ((false, None), snd r) /\
  (forall m, m ∈ store.processed_events (snd r) <->
             m = (relayID, eventID) \/ m ∈ store.processed_events d) /\
  (forall relayID' eventID',
     eventID' <> "" ->
     (relayID', eventID') <> (relayID, eventID) ->
     (relayID', eventID') ∉ store.processed_events d ->
     fst (store.RegisterEvent f' ctx' relayID' eventID' (snd r)) = (true, None)) /\
  store.relays (snd r) = store.relays d /\
  store.relay_actions (snd r) = store.relay_actions d /\
  store.execution_logs (snd r) = store.execution_logs d.
Proof.
  intros Hid Hf Hf' r. subst r. rewrite (RegisterEvent_ok f) by done.
  destruct (decide ((relayID, eventID) ∈ store.processed_events d)) as [Hin|Hnotin];
    cbn [fst snd].
  - rewrite bool_decide_eq_false_2 by (intros ?; done).
    rewrite (RegisterEvent_ok f') by done. rewrite decide_True by done.
    split_and!; try done.
    + intros m. split; [by right|]. by intros [->|?].
    + intros relayID' eventID' Hid' Hne Hnot.
      rewrite (RegisterEvent_ok f') by done. by rewrite decide_False.
  - rewrite bool_decide_eq_true_2 by done.
    rewrite (RegisterEvent_ok f') by done. cbn. rewrite decide_True by set_solver.
    split_and!; try done.
    + intros m. set_solver.
    + intros relayID' eventID' Hid' Hne Hnot.
      rewrite (RegisterEvent_ok f') by done. cbn. rewrite decide_False; [done|].
      rewrite elem_of_union, elem_of_singleton. by intros [?|?].
Qed.

Lemma RegisterEvent_claims_once_witness :
  let r := store.RegisterEvent store.no_faults Background examples.relay_R "E1"
             examples.db_one in
  fst r = (true, None) /\
  store.RegisterEvent store.no_faults Background examples.relay_R "E1" (snd r) =
    ((false, None), snd r) /\
  fst (store.RegisterEvent store.no_faults Background examples.other_relay "E1" (snd r)) =
    (true, None).
Proof.
  intros r.
  destruct (RegisterEvent_claims_once store.no_faults store.no_faults Background Background
              examples.relay_R "E1" examples.db_one)
    as (Hfirst & Hsecond & _ & Hother & _); [discriminate|reflexivity|reflexivity|].
  split; [exact Hfirst|]. split; [exact Hsecond|].
  apply Hother; [discriminate|discriminate|apply not_elem_of_empty].
Defined.

(** X6. [LogExecution] never touches the other tables and never rewrites
    a row.  When the insert fails it reports the driver's error, wrapped,
    and leaves the log as it was; otherwise it appends one row holding its
    arguments, with NULL for an empty payload and with an error message
    only when the status is not [success] and the details are not empty. *)
Theorem LogExecution_appends (f : store.Faults) (ctx : Context)
    (relayID eventID status details payload : string) (d : store.DB) :
  let r := store.LogExecution f ctx relayID eventID status details payload d in
  store.relays (snd r) = store.relays d /\
  store.relay_actions (snd r) = store.relay_actions d /\
  store.processed_events (snd r) = store.processed_events d /\
  match store.LogExecution_Exec f with
  | Some err =>
      fst r = Some (Errorf_w "failed to write execution log: " err) /\
      errors_Is (Errorf_w "failed to write execution log: " err) err /\
      store.execution_logs (snd r) = store.execution_logs d
  | None =>
      fst r = None /\
      exists row,
        store.execution_logs (snd r) = store.execution_logs d ++ [row] /\
        store.l_relay_id row = relayID /\
        store.l_event_id row = eventID /\
        store.l_status row = status /\
        store.l_payload row = (if decide (payload = "") then None else Some payload) /\
        store.l_error_message row =
          (if decide (status = "success" \/ details = "") then None else Some details)
  end.
Proof.
  intros r. subst r. unfold store.LogExecution.
  destruct (store.LogExecution_Exec f) as [err|]; cbn.
  - split_and!; try done. apply errors_Is_wrapped.
  - split_and!; try done. eexists. split; [done|]. cbn. split_and!; try done.
    + destruct payload; cbn; [done|]. rewrite decide_True by lia. by rewrite decide_False.
    + destruct (decide (status <> "success" /\ details <> "")) as [[? ?]|Hn].
      * rewrite decide_False; [done|]. by intros [?|?].
      * rewrite decide_True; [done|].
        destruct (decide (status = "success")); [by left|].
        destruct (decide (details = "")); [by right|]. by destruct Hn.
Qed.

Lemma scan_rows_length f i rows acc actions :
  store.scan_rows f i rows acc = inr actions ->
  length actions = (length acc + length rows)%nat.
Proof.
  revert i acc. induction rows as [|row rows IH]; intros i acc Hscan; cbn in Hscan.
  - injection Hscan as <-. cbn. lia.
  - destruct (store.GetRelayActions_Scan f i); [done|].
    destruct (store.Unmarshal_config (store.a_config row)); [done|].
    rewrite (IH _ _ Hscan), length_app. cbn. lia.
Qed.

Lemma scan_rows_error f i rows acc err :
  store.scan_rows f i rows acc = inl err -> exists prefix cause, err = Errorf_w prefix cause.
Proof.
  revert i acc. induction rows as [|row rows IH]; intros i acc Hscan; cbn in Hscan; [done|].
  destruct (store.GetRelayActions_Scan f i); [injection Hscan as <-; eauto|].
  destruct (store.Unmarshal_config (store.a_config row)); [injection Hscan as <-; eauto|].
  by eapply IH.
Qed.

Lemma select_actions_nil relayID (d : store.DB) :
  store.select_actions relayID d = [] <->
  store.relays d !! relayID <> Some (Some true) \/
  Forall (fun a => store.a_relay_id a <> relayID) (store.relay_actions d).
Proof.
  split.
  - intros Hnil.
    destruct (decide (store.relays d !! relayID = Some (Some true))) as [Hact|]; [|by left].
    right. unfold store.select_actions in Hnil. rewrite Hact in Hnil.
    pose proof (merge_sort_Permutation store.by_order_index
      (filter (fun a => store.a_relay_id a = relayID) (store.relay_actions d))) as Hperm.
    rewrite Hnil in Hperm. apply Permutation_nil_l in Hperm.
    apply Forall_forall. intros a Ha Hrel.
    assert (a ∈ filter (fun a => store.a_relay_id a = relayID) (store.relay_actions d))
      as Hin by (by apply list_elem_of_filter).
    rewrite <- Hperm in Hin. by apply not_elem_of_nil in Hin.
  - intros Hnone. unfold store.select_actions. destruct Hnone as [Hrelay|Hrows].
    + destruct (store.relays d !! relayID) as [[[|]|]|]; done.
    + assert (filter (fun a => store.a_relay_id a = relayID) (store.relay_actions d) = [])
        as ->; [|by repeat case_match].
      induction Hrows as [|a rows Ha _ IH]; [done|].
      rewrite filter_cons. by case_decide.
Qed.

(** X7. [GetRelayActions] returns the no-actions error exactly when the
    query and the row iteration report no storage error and the relay is
    not active or no action row belongs to it; no storage or decoding
    failure is ever reported as no-actions. *)
Theorem GetRelayActions_ErrNoActions_iff (f : store.Faults) (ctx : Context)
    (relayID : string) (d : store.DB) :
  store.GetRelayActions f ctx relayID d = inl store.ErrNoActions <->
  store.GetRelayActions_Query f = None /\
  store.GetRelayActions_rows_Err f = None /\
  (store.relays d !! relayID <> Some (Some true) \/
   Forall (fun a => store.a_relay_id a <> relayID) (store.relay_actions d)).
Proof.
  split.
  - unfold store.GetRelayActions. intros Hget.
    destruct (store.GetRelayActions_Query f); [done|].
    destruct (store.scan_rows f 0 (store.select_actions relayID d) []) as [err|acts] eqn:Hscan.
    { destruct (scan_rows_error _ _ _ _ _ Hscan) as (? & ? & ->). done. }
    destruct (store.GetRelayActions_rows_Err f); [done|].
    case_decide as Hlen; [|done]. split; [done|]. split; [done|].
    apply select_actions_nil.
    rewrite (scan_rows_length _ _ _ _ _ Hscan) in Hlen. cbn in Hlen.
    by destruct (store.select_actions relayID d).
  - intros (Hq & Hr & Hnone).
    unfold store.GetRelayActions. rewrite Hq.
    apply select_actions_nil in Hnone. rewrite Hnone. cbn. by rewrite Hr.
Qed.

Lemma scan_rows_fetched f i rows acc actions :
  store.scan_rows f i rows acc = inr actions ->
  exists news, actions = acc ++ news /\ Forall2 fetched_from news rows.
Proof.
  revert i acc. induction rows as [|row rows IH]; intros i acc Hscan; cbn in Hscan.
  - injection Hscan as <-. exists []. by rewrite app_nil_r.
  - destruct (store.GetRelayActions_Scan f i); [done|].
    destruct (store.Unmarshal_config (store.a_config row)) as [|cfg] eqn:Hcfg; [done|].
    destruct (IH _ _ Hscan) as (news & -> & Hall).
    eexists (_ :: news). rewrite <- app_assoc. split; [done|].
    constructor; [|done]. by unfold fetched_from.
Qed.

Lemma GetRelayActions_inr_rows (f : store.Faults) (ctx : Context)
    (relayID : string) (d : store.DB) (actions : list store.RelayAction) :
  store.GetRelayActions f ctx relayID d = inr actions ->
  store.relays d !! relayID = Some (Some true) /\
  actions <> [] /\
  exists rows,
    rows ≡ₚ filter (fun a => store.a_relay_id a = relayID) (store.relay_actions d) /\
    StronglySorted Z.le (store.a_order_index <$> rows) /\
    Forall2 fetched_from actions rows.
Proof.
  intros Hget. destruct (GetRelayActions_order _ _ _ _ _ Hget) as [Hne Horder].
  assert (Hrows : store.select_actions relayID d <> []).
  { intros Hnil. rewrite Hnil in Horder. by destruct actions. }
  destruct (select_actions_active _ _ Hrows) as [Hactive Hperm].
  split; [done|]. split; [done|]. exists (store.select_actions relayID d).
  split; [done|]. split; [apply select_actions_sorted|].
  unfold store.GetRelayActions in Hget.
  destruct (store.GetRelayActions_Query f); [done|].
  destruct (store.scan_rows f 0 (store.select_actions relayID d) []) as [|acts] eqn:Hscan;
    [done|].
  destruct (store.GetRelayActions_rows_Err f); [done|].
  case_decide; [done|]. injection Hget as <-.
  by destruct (scan_rows_fetched _ _ _ _ _ Hscan) as (news & -> & Hall).
Qed.

(** X8. What [GetRelayActions] returns without error is never empty and
    is, row for row, the action rows of the relay, which is then active:
    all of them and no row of another relay, in ascending order of
    [order_index], each with its type, its order index and its
    configuration decoded. *)
Theorem GetRelayActions_returns_relay_rows (f : store.Faults) (ctx : Context)
    (relayID : string) (d : store.DB) (actions : list store.RelayAction) :
  store.GetRelayActions f ctx relayID d = inr actions ->
  store.relays d !! relayID = Some (Some true) /\
  actions <> [] /\
  exists rows,
    rows ≡ₚ filter (fun a => store.a_relay_id a = relayID) (store.relay_actions d) /\
    StronglySorted Z.le (store.a_order_index <$> rows) /\
    Forall2 fetched_from actions rows.
Proof. apply GetRelayActions_inr_rows. Qed.

Lemma GetRelayActions_returns_relay_rows_witness :
  store.relays examples.db_three !! examples.relay_R = Some (Some true) /\
  exists rows,
    rows ≡ₚ filter (fun a => store.a_relay_id a = examples.relay_R)
              (store.relay_actions examples.db_three) /\
    StronglySorted Z.le (store.a_order_index <$> rows) /\
    Forall2 fetched_from
      [examples.slack_action 1; examples.slack_action 2; examples.slack_action 3] rows.
Proof.
  destruct (GetRelayActions_returns_relay_rows store.no_faults Background examples.relay_R
              examples.db_three
              [examples.slack_action 1; examples.slack_action 2; examples.slack_action 3])
    as (Hactive & _ & Hrows).
  - by vm_compute.
  - split; [exact Hactive|exact Hrows].
Defined.

(** ** More on the engine *)
Section EngineMore.

Context {E : Type} (reg : engine.Registry E).
Implicit Types (f : store.Faults) (w : engine.World E) (job : engine.Job).

Lemma register_calls_app (t1 t2 : list engine.Event) :
  register_calls (t1 ++ t2) = register_calls t1 ++ register_calls t2.
Proof. apply omap_app. Qed.

Lemma execute_args_app (t1 t2 : list engine.Event) :
  execute_args (t1 ++ t2) = execute_args t1 ++ execute_args t2.
Proof. apply omap_app. Qed.

(** The projections of the events of a job past the dedup stage. *)
Lemma passes_events_calls f ctx job logger err (chain : list engine.Event) :
  Forall chain_event chain ->
  let new :=
    dedup_events ctx job ++ [engine.Store_GetRelayActions ctx (engine.RelayID job)] ++
    chain ++ audit_events f job logger err in
  engine.fetch_calls new = [engine.RelayID job] /\
  engine.log_calls new =
    [(logCtx, (engine.RelayID job,
               match err with Some _ => "failed" | None => "success" end,
               match err with Some e => Error e | None => "Relay executed successfully" end,
               engine.EventID job, engine.Payload job))] /\
  engine.Cancel logCtx ∈ new.
Proof.
  intros Hchain new. subst new.
  destruct (chain_events_silent _ Hchain) as (_ & Hlog & Hfetch).
  destruct (audit_events_silent f job logger err) as (_ & Hfetch' & _ & Hlog').
  rewrite !fetch_calls_app, !log_calls_app, Hlog, Hfetch, Hlog', Hfetch'.
  assert (engine.fetch_calls (dedup_events ctx job) = [] /\
          engine.log_calls (dedup_events ctx job) = []) as [-> ->]
    by (unfold dedup_events; by case_decide).
  split; [done|]. split; [done|].
  apply elem_of_app. right. apply elem_of_app. right. apply elem_of_app. right.
  unfold audit_events. apply list_elem_of_further, elem_of_app. right.
  apply list_elem_of_here.
Qed.

(** X9. When the fetch of the actions fails, for whatever reason (a
    storage error, a configuration that does not decode, no action), a job
    past the dedup stage ends with that very error: no executor is
    invoked, the executors' world is untouched, the failure is still
    audited once, and the job is acknowledged false. *)
Theorem fetch_error_aborts_job f ctx id job w (fetchErr : error) :
  passes_dedup f job (engine.db w) ->
  store.GetRelayActions f ctx (engine.RelayID job) (engine.db w) = inl fetchErr ->
  let w' := engine.worker_job reg f ctx id job w in
  fst (engine.process reg f ctx job (worker_logger id) (job_received id job w)) =
    Some fetchErr /\
  engine.executed (since w w') = [] /\
  engine.ext w' = engine.ext w /\
  length (engine.log_calls (since w w')) = 1%nat /\
  engine.acks (since w w') = [false].
Proof.
  intros Hpass Hfetch w'. subst w'.
  destruct (process_passes_spec reg f ctx job (worker_logger id) (job_received id job w) Hpass)
    as (chain & Htr & _ & Hchain & Hcase).
  cbn [job_received engine.slog engine.emit engine.db engine.ext] in Hcase.
  rewrite Hfetch in Hcase. destruct Hcase as (Herr & -> & Hext).
  destruct (worker_job_calls reg f ctx id job w) as (-> & -> & _).
  destruct (worker_job_since reg f ctx id job w) as (_ & _ & _ & _ & ->).
  rewrite worker_job_acks, Herr, Hext, (since_app _ _ _ Htr), executed_job_events.
  destruct (passes_events_calls f ctx job (worker_logger id)
              (fst (engine.process reg f ctx job (worker_logger id) (job_received id job w)))
              [] ltac:(constructor)) as (_ & -> & _).
  done.
Qed.

(** A row of the active relay whose configuration is neither an object
    nor null makes the fetch fail. *)
Lemma GetRelayActions_bad_config f ctx relayID (d : store.DB) (row : store.relay_actions_row) :
  row ∈ store.relay_actions d ->
  store.a_relay_id row = relayID ->
  (forall fields, store.a_config row <> VObject fields) ->
  store.a_config row <> VNil ->
  exists err, store.GetRelayActions f ctx relayID d = inl err.
Proof.
  intros Hin Hrel Hobj Hnil.
  destruct (store.GetRelayActions f ctx relayID d) as [err|actions] eqn:Hget; [by eexists|].
  destruct (GetRelayActions_inr_rows _ _ _ _ _ Hget)
    as (_ & _ & rows & Hperm & _ & Hall).
  assert (Hrow : row ∈ rows).
  { rewrite Hperm. by apply list_elem_of_filter. }
  apply list_elem_of_lookup in Hrow as [i Hi].
  destruct (Forall2_lookup_r _ _ _ _ _ Hall Hi) as (act & _ & _ & _ & Hcfg).
  unfold store.Unmarshal_config in Hcfg.
  destruct (store.a_config row); try done. by destruct (Hobj fields).
Qed.

(** X10. One action row of the job's relay whose configuration is
    neither a JSON object nor null fails the whole job before any
    executor runs, the executors of the well-formed actions included. *)
Theorem malformed_config_runs_nothing f ctx id job w (row : store.relay_actions_row) :
  passes_dedup f job (engine.db w) ->
  row ∈ store.relay_actions (engine.db w) ->
  store.a_relay_id row = engine.RelayID job ->
  (forall fields, store.a_config row <> VObject fields) ->
  store.a_config row <> VNil ->
  let w' := engine.worker_job reg f ctx id job w in
  engine.executed (since w w') = [] /\
  engine.ext w' = engine.ext w /\
  engine.acks (since w w') = [false].
Proof.
  intros Hpass Hin Hrel Hobj Hnil w'. subst w'.
  destruct (GetRelayActions_bad_config f ctx (engine.RelayID job) (engine.db w) row)
    as [err Hfetch]; [done..|].
  destruct (process_passes_spec reg f ctx job (worker_logger id) (job_received id job w) Hpass)
    as (chain & Htr & _ & Hchain & Hcase).
  cbn [job_received engine.slog engine.emit engine.db engine.ext] in Hcase.
  rewrite Hfetch in Hcase. destruct Hcase as (Herr & -> & Hext).
  destruct (worker_job_calls reg f ctx id job w) as (-> & _).
  destruct (worker_job_since reg f ctx id job w) as (_ & _ & _ & _ & ->).
  by rewrite worker_job_acks, Herr, Hext, (since_app _ _ _ Htr), executed_job_events.
Qed.

End EngineMore.

Lemma fetch_error_aborts_job_witness :
  let w := examples.world_of examples.db_one examples.ok200 in
  let w' := engine.worker_job examples.slack_registry examples.query_down
              (WithCancel Background) 0 examples.job_E1 w in
  fst (engine.process examples.slack_registry examples.query_down (WithCancel Background)
         examples.job_E1 (worker_logger 0) (job_received 0 examples.job_E1 w)) =
    Some (Errorf_w "db error: " (errors_New "connection reset by peer")) /\
  engine.executed (since w w') = [] /\
  engine.ext w' = engine.ext w /\
  length (engine.log_calls (since w w')) = 1%nat /\
  engine.acks (since w w') = [false].
Proof.
  intros w w'.
  apply (fetch_error_aborts_job examples.slack_registry examples.query_down
           (WithCancel Background) 0 examples.job_E1 w).
  - right. split; [reflexivity|]. apply not_elem_of_empty.
  - reflexivity.
Defined.

Lemma malformed_config_runs_nothing_witness :
  let w := examples.world_of examples.db_bad_config examples.ok200 in
  let w' := engine.worker_job examples.slack_registry store.no_faults
              (WithCancel Background) 0 examples.job_E1 w in
  engine.executed (since w w') = [] /\
  engine.ext w' = engine.ext w /\
  engine.acks (since w w') = [false].
Proof.
  intros w w'.
  apply (malformed_config_runs_nothing examples.slack_registry store.no_faults
           (WithCancel Background) 0 examples.job_E1 w
           (store.mkActionRow examples.relay_R "slack_send" (VArray []) 2)).
  - right. split; [reflexivity|]. apply not_elem_of_empty.
  - cbn. apply list_elem_of_further, list_elem_of_here.
  - reflexivity.
  - intros fields. discriminate.
  - discriminate.
Defined.

Section EngineFrame.

Context {E : Type} (reg : engine.Registry E).
Implicit Types (f : store.Faults) (w : engine.World E) (job : engine.Job).

Lemma audit_db_logs f job err (d : store.DB) :
  match store.LogExecution_Exec f with
  | Some _ => store.execution_logs (audit_db f job err d) = store.execution_logs d
  | None =>
      exists row,
        store.execution_logs (audit_db f job err d) = store.execution_logs d ++ [row] /\
        store.l_relay_id row = engine.RelayID job /\
        store.l_payload row =
          (if decide (engine.Payload job = "") then None else Some (engine.Payload job))
  end.
Proof.
  unfold audit_db, store.LogExecution. destruct (store.LogExecution_Exec f); [done|].
  eexists. split; [done|]. split; [done|]. cbn.
  destruct (engine.Payload job); cbn; [done|]. by rewrite decide_True by lia.
Qed.


Lemma chain_events_no_register (t : list engine.Event) :
  Forall chain_event t -> register_calls t = [].
Proof.
  induction 1 as [|e t He _ IH]; [done|]. destruct e; try done; cbn; exact IH.
Qed.

(** X12. A job with an empty event id is never deduplicated:
    [RegisterEvent] is not called (so not even its storage error can stop
    the job), no marker is written, and the job always goes on to the
    fetch and to its audit write; delivered again, it is processed
    again. *)
Theorem empty_event_id_bypasses_dedup f1 f2 ctx id job w :
  engine.EventID job = "" ->
  let w1 := engine.worker_job reg f1 ctx id job w in
  let w2 := engine.worker_job reg f2 ctx id job w1 in
  register_calls (since w w1) = [] /\
  store.processed_events (engine.db w1) = store.processed_events (engine.db w) /\
  engine.fetch_calls (since w w1) = [engine.RelayID job] /\
  length (engine.log_calls (since w w1)) = 1%nat /\
  engine.fetch_calls (since w1 w2) = [engine.RelayID job] /\
  length (engine.log_calls (since w1 w2)) = 1%nat.
Proof.
  intros Hid.
  assert (Hone : forall f w0,
    register_calls (since w0 (engine.worker_job reg f ctx id job w0)) = [] /\
    store.processed_events (engine.db (engine.worker_job reg f ctx id job w0)) =
      store.processed_events (engine.db w0) /\
    engine.fetch_calls (since w0 (engine.worker_job reg f ctx id job w0)) =
      [engine.RelayID job] /\
    length (engine.log_calls (since w0 (engine.worker_job reg f ctx id job w0))) = 1%nat).
  { intros f w0.
    assert (Hpass : passes_dedup f job (engine.db (job_received id job w0))) by (by left).
    destruct (process_passes_spec reg f ctx job (worker_logger id) (job_received id job w0)
                Hpass) as (chain & Htr & Hdb & Hchain & _).
    destruct (passes_events_calls f ctx job (worker_logger id)
                (fst (engine.process reg f ctx job (worker_logger id)
                        (job_received id job w0)))
                chain Hchain) as (Hfetch & Hlog & _).
    destruct (worker_job_calls reg f ctx id job w0) as (_ & -> & ->).
    destruct (worker_job_since reg f ctx id job w0) as (r0 & r1 & -> & -> & _).
    rewrite (since_app _ _ _ Htr), Hfetch, Hlog, Hdb.
    destruct (audit_db_tables f job
      (fst (engine.process reg f ctx job (worker_logger id) (job_received id job w0)))
      (engine.db (after_dedup ctx job (job_received id job w0)))) as (_ & _ & ->).
    unfold after_dedup, dedup_events. rewrite !decide_True by done.
    split_and!; try done.
    change (engine.Slog r0 :: ?l) with ([engine.Slog r0] ++ l).
    rewrite !register_calls_app, (chain_events_no_register _ Hchain).
    unfold audit_events. by destruct (store.LogExecution_Exec f). }
  intros w1 w2. destruct (Hone f1 w) as (? & ? & ? & ?).
  destruct (Hone f2 w1) as (? & ? & ? & ?). done.
Qed.

End EngineFrame.


Lemma empty_event_id_bypasses_dedup_witness :
  let w := examples.world_of examples.db_one examples.ok200 in
  let w1 := engine.worker_job examples.slack_registry examples.dedup_down
              (WithCancel Background) 0 examples.job_no_event w in
  let w2 := engine.worker_job examples.slack_registry examples.dedup_down
              (WithCancel Background) 0 examples.job_no_event w1 in
  register_calls (since w w1) = [] /\
  store.processed_events (engine.db w1) = store.processed_events (engine.db w) /\
  engine.fetch_calls (since w w1) = [examples.relay_R] /\
  length (engine.log_calls (since w w1)) = 1%nat /\
  engine.fetch_calls (since w1 w2) = [examples.relay_R] /\
  length (engine.log_calls (since w1 w2)) = 1%nat.
Proof.
  intros w w1 w2.
  apply (empty_event_id_bypasses_dedup examples.slack_registry examples.dedup_down
           examples.dedup_down (WithCancel Background) 0 examples.job_no_event w).
  reflexivity.
Defined.

Section EngineInvariants.

Context {E : Type} (reg : engine.Registry E).
Implicit Types (f : store.Faults) (w : engine.World E) (job : engine.Job).

(** X13. Whatever the job, the faults and the executors, one run of a
    worker on a job leaves the tables [relays] and [relay_actions] as they
    were, removes no dedup marker and adds at most the job's own, and
    keeps every row of [execution_logs], adding at most one at the end. *)
Theorem worker_job_frame f ctx id job w :
  let w' := engine.worker_job reg f ctx id job w in
  store.relays (engine.db w') = store.relays (engine.db w) /\
  store.relay_actions (engine.db w') = store.relay_actions (engine.db w) /\
  store.processed_events (engine.db w) ⊆ store.processed_events (engine.db w') /\
  store.processed_events (engine.db w') ⊆
    {[ marker job ]} ∪ store.processed_events (engine.db w) /\
  exists rows,
    (length rows <= 1)%nat /\
    store.execution_logs (engine.db w') = store.execution_logs (engine.db w) ++ rows.
Proof.
  intros w'. subst w'.
  destruct (worker_job_since reg f ctx id job w) as (_ & _ & _ & -> & _).
  destruct (dedup_cases f job (engine.db (job_received id job w)))
    as [[Hid [e He]]|[(Hid & He & Hin)|Hpass]].
  - rewrite (process_dedup_error reg _ _ _ _ _ _ Hid He). cbn.
    split; [done|]. split; [done|]. split; [done|]. split; [set_solver|].
    exists []. split; [cbn; lia|by rewrite app_nil_r].
  - rewrite (process_duplicate reg _ _ _ _ _ Hid He Hin). cbn.
    split; [done|]. split; [done|]. split; [done|]. split; [set_solver|].
    exists []. split; [cbn; lia|by rewrite app_nil_r].
  - destruct (process_passes_spec reg f ctx job (worker_logger id) _ Hpass)
      as (_ & _ & -> & _).
    set (err := fst (engine.process reg f ctx job (worker_logger id) (job_received id job w))).
    destruct (audit_db_tables f job err
                (engine.db (after_dedup ctx job (job_received id job w))))
      as (-> & -> & ->).
    destruct (after_dedup_trace ctx job (job_received id job w))
      as (_ & _ & Hrel & Hact & Hlogs).
    cbn [job_received engine.slog engine.emit engine.db] in Hrel, Hact, Hlogs.
    split; [exact Hrel|]. split; [exact Hact|].
    split; [|split].
    + unfold after_dedup. case_decide; cbn; set_solver.
    + unfold after_dedup, marker. case_decide; cbn; set_solver.
    + pose proof (audit_db_logs f job err
        (engine.db (after_dedup ctx job (job_received id job w)))) as Hrows.
      rewrite Hlogs in Hrows.
      destruct (store.LogExecution_Exec f).
      * exists []. split; [cbn; lia|by rewrite app_nil_r].
      * destruct Hrows as (row & -> & _). exists [row]. split; [cbn; lia|done].
Qed.

(** The loop returns nil exactly when every action resolves and every
    executor returns nil, and then leaves the state the chain reaches. *)
Lemma run_actions_nil_iff ctx job logger actions w :
  (fst (engine.run_actions reg ctx job logger actions w) = None <->
   is_Some (chain_succeeds reg ctx (engine.Payload job) actions (engine.ext w))) /\
  (forall e',
     chain_succeeds reg ctx (engine.Payload job) actions (engine.ext w) = Some e' ->
     engine.ext (snd (engine.run_actions reg ctx job logger actions w)) = e').
Proof.
  revert w. induction actions as [|act rest IH]; intros w.
  - cbn. split; [split; eauto|]. by intros e' [= <-].
  - cbn [engine.run_actions chain_succeeds]. unfold engine.slog, engine.emit. cbn.
    destruct (reg (store.ActionType act)) as [pluginErr|executor]; cbn.
    { split; [|done]. split; [done|]. by intros [? ?]. }
    destruct (executor ctx (store.Config act) (engine.Payload job) (engine.ext w))
      as [[execErr|] e1]; cbn.
    { split; [|done]. split; [done|]. by intros [? ?]. }
    match goal with |- context [engine.run_actions _ _ _ _ rest ?w0] =>
      exact (IH w0) end.
Qed.

(** X14. A job past the dedup stage succeeds exactly when its actions are
    fetched and, run one after the other from the world the job found,
    all resolve in the registry and all return nil; it then has invoked
    every fetched action, left the executors' world where that chain
    ends, and is acknowledged true. *)
Theorem job_succeeds_iff_chain_succeeds f ctx id job w :
  passes_dedup f job (engine.db w) ->
  let w' := engine.worker_job reg f ctx id job w in
  let err := fst (engine.process reg f ctx job (worker_logger id) (job_received id job w)) in
  (err = None <->
   exists actions e',
     store.GetRelayActions f ctx (engine.RelayID job) (engine.db w) = inr actions /\
     chain_succeeds reg ctx (engine.Payload job) actions (engine.ext w) = Some e') /\
  (forall actions e',
     store.GetRelayActions f ctx (engine.RelayID job) (engine.db w) = inr actions ->
     chain_succeeds reg ctx (engine.Payload job) actions (engine.ext w) = Some e' ->
     engine.executed (since w w') = actions /\
     engine.ext w' = e' /\
     engine.acks (since w w') = [true]).
Proof.
  intros Hpass w' err. subst w' err.
  set (w0 := job_received id job w).
  set (wf := engine.emit (engine.Store_GetRelayActions ctx (engine.RelayID job))
               (after_dedup ctx job w0)).
  assert (Hext : engine.ext wf = engine.ext w).
  { subst wf. cbn. by destruct (after_dedup_trace ctx job w0) as (_ & -> & _). }
  assert (Hproc : engine.process reg f ctx job (worker_logger id) w0 =
    match store.GetRelayActions f ctx (engine.RelayID job) (engine.db w) with
    | inl fetchErr =>
        (Some fetchErr, engine.deferred_log f job (worker_logger id) (Some fetchErr) wf)
    | inr actions =>
        (fst (engine.run_actions reg ctx job (worker_logger id) actions wf),
         engine.deferred_log f job (worker_logger id)
           (fst (engine.run_actions reg ctx job (worker_logger id) actions wf))
           (snd (engine.run_actions reg ctx job (worker_logger id) actions wf)))
    end).
  { rewrite (process_passes reg f ctx job (worker_logger id) w0 Hpass).
    unfold engine.with_deferred_log, engine.fetch_and_run. fold wf.
    assert (store.GetRelayActions f ctx (engine.RelayID job) (engine.db wf) =
            store.GetRelayActions f ctx (engine.RelayID job) (engine.db w)) as ->.
    { subst wf w0. cbn [engine.emit engine.db]. by rewrite GetRelayActions_after_dedup. }
    destruct (store.GetRelayActions f ctx (engine.RelayID job) (engine.db w)); [done|].
    by destruct (engine.run_actions _ _ _ _ _ _). }
  split.
  - rewrite Hproc.
    destruct (store.GetRelayActions f ctx (engine.RelayID job) (engine.db w))
      as [fetchErr|actions]; cbn [fst].
    + split; [done|]. by intros (? & ? & ? & _).
    + destruct (run_actions_nil_iff ctx job (worker_logger id) actions wf) as [Hiff _].
      rewrite Hiff, Hext. split.
      * intros [e' He']. by exists actions, e'.
      * intros (actions' & e' & [= <-] & He'). by exists e'.
  - intros actions e' Hget Hchain.
    rewrite Hget in Hproc.
    destruct (run_actions_nil_iff ctx job (worker_logger id) actions wf) as [Hiff Hstate].
    rewrite Hext in Hiff, Hstate.
    assert (Hnil : fst (engine.run_actions reg ctx job (worker_logger id) actions wf) = None)
      by (apply Hiff; by exists e').
    destruct (worker_job_executed reg f ctx id job w)
      as [Hnone|(_ & actions' & Hget' & _ & Hall)].
    + exfalso.
      destruct (process_passes_spec reg f ctx job (worker_logger id) w0 Hpass)
        as (chain & Htr & _ & _ & Hcase).
      cbn [w0 job_received engine.slog engine.emit engine.db] in Hcase.
      rewrite Hget in Hcase. destruct Hcase as (_ & Hdone).
      fold w0 in Hdone. rewrite Hproc in Hdone. cbn [fst] in Hdone.
      specialize (Hdone Hnil).
      destruct (worker_job_calls reg f ctx id job w) as (Hex & _).
      fold w0 in Hex. rewrite Hex, (since_app _ _ _ Htr), executed_job_events, Hdone in Hnone.
      subst actions. cbn in Hnil.
      destruct (GetRelayActions_order _ _ _ _ _ Hget) as [Hne _]. done.
    + rewrite Hget in Hget'. injection Hget' as <-.
      fold w0 in Hall. rewrite Hproc in Hall. cbn [fst] in Hall.
      split; [by apply Hall|].
      destruct (worker_job_since reg f ctx id job w) as (_ & _ & _ & _ & ->).
      rewrite worker_job_acks. fold w0. rewrite Hproc. cbn [fst snd].
      rewrite deferred_log_eq, Hnil. cbn. split; [by apply Hstate|done].
Qed.

End EngineInvariants.

Lemma job_succeeds_iff_chain_succeeds_witness :
  let w := examples.world_of examples.db_three examples.ok200 in
  let w' := engine.worker_job examples.slack_registry store.no_faults
              (WithCancel Background) 0 examples.job_E1 w in
  fst (engine.process examples.slack_registry store.no_faults (WithCancel Background)
         examples.job_E1 (worker_logger 0) (job_received 0 examples.job_E1 w)) = None /\
  engine.executed (since w w') =
    [examples.slack_action 1; examples.slack_action 2; examples.slack_action 3] /\
  slack.n_Do (engine.ext w') = 3%nat /\
  engine.acks (since w w') = [true].
Proof.
  intros w w'.
  destruct (job_succeeds_iff_chain_succeeds examples.slack_registry store.no_faults
              (WithCancel Background) 0 examples.job_E1 w) as [Hiff Hrun].
  { right. split; [reflexivity|]. apply not_elem_of_empty. }
  assert (Hget : store.GetRelayActions store.no_faults (WithCancel Background)
                   (engine.RelayID examples.job_E1) (engine.db w) =
                 inr [examples.slack_action 1; examples.slack_action 2;
                      examples.slack_action 3]) by (by vm_compute).
  assert (Hchain : chain_succeeds examples.slack_registry (WithCancel Background)
                     (engine.Payload examples.job_E1)
                     [examples.slack_action 1; examples.slack_action 2;
                      examples.slack_action 3] (engine.ext w) =
                   Some (slack.mkWorld (fun _ => None) (fun _ => slack.Response 200) 3
                           (replicate 3
                              (slack_post slack.New (WithCancel Background)
                                 examples.hook_cfg examples.payload_x1)))).
  { vm_compute. reflexivity. }
  split.
  - apply Hiff. eexists _, _. split; [exact Hget|exact Hchain].
  - destruct (Hrun _ _ Hget Hchain) as (Hexd & Hext & Hack).
    split; [exact Hexd|]. split; [|exact Hack].
    exact (f_equal slack.n_Do Hext).
Defined.

Section EngineWorker.

Context {E : Type} (reg : engine.Registry E).
Implicit Types (f : store.Faults) (w : engine.World E) (job : engine.Job).

Lemma run_actions_job_events ctx job logger actions w :
  exists new,
    engine.trace (snd (engine.run_actions reg ctx job logger actions w)) =
      engine.trace w ++ new /\
    Forall (job_event ctx job) new.
Proof.
  revert w. induction actions as [|act rest IH]; intros w.
  - exists []. cbn. by rewrite app_nil_r.
  - cbn [engine.run_actions]. unfold engine.slog, engine.emit. cbn.
    destruct (reg (store.ActionType act)) as [pluginErr|executor].
    + eexists [_; _]. cbn. rewrite <- app_assoc. split; [done|]. by repeat constructor.
    + destruct (executor ctx (store.Config act) (engine.Payload job) (engine.ext w))
        as [[execErr|] ext'].
      * eexists [_; _; _]. cbn. repeat rewrite <- app_assoc. split; [done|].
        by repeat constructor.
      * match goal with |- context [engine.run_actions _ _ _ _ rest ?w0] =>
          destruct (IH w0) as (new & -> & Hnew) end.
        cbn. eexists ([_; _; _] ++ new). repeat rewrite <- app_assoc. split; [done|].
        apply Forall_app. split; [by repeat constructor|done].
Qed.

Lemma audit_events_job_events f ctx job logger err :
  Forall (job_event ctx job) (audit_events f job logger err).
Proof.
  unfold audit_events, audit_call.
  destruct (store.LogExecution_Exec f); by repeat constructor.
Qed.

Lemma process_job_events f ctx job logger w :
  exists new,
    engine.trace (snd (engine.process reg f ctx job logger w)) = engine.trace w ++ new /\
    Forall (job_event ctx job) new.
Proof.
  destruct (dedup_cases f job (engine.db w)) as [[Hid [e He]]|[(Hid & He & Hin)|Hpass]].
  - rewrite (process_dedup_error reg _ _ _ _ _ _ Hid He). eexists [_]. split; [done|].
    by repeat constructor.
  - rewrite (process_duplicate reg _ _ _ _ _ Hid He Hin). unfold engine.slog, engine.emit.
    cbn. eexists [_; _]. rewrite <- app_assoc. split; [done|]. by repeat constructor.
  - rewrite (process_passes reg _ _ _ _ _ Hpass).
    unfold engine.with_deferred_log, engine.fetch_and_run.
    destruct (after_dedup_trace ctx job w) as (Hd & _).
    assert (Hdedup : Forall (job_event ctx job) (dedup_events ctx job)).
    { unfold dedup_events. case_decide; by repeat constructor. }
    destruct (store.GetRelayActions _ _ _ _) as [fetchErr|actions].
    + rewrite deferred_log_eq. cbn. rewrite Hd. eexists. repeat rewrite <- app_assoc.
      split; [done|]. apply Forall_app. split; [done|].
      apply Forall_cons. split; [done|]. apply audit_events_job_events.
    + destruct (run_actions_job_events ctx job logger actions
                  (engine.emit (engine.Store_GetRelayActions ctx (engine.RelayID job))
                     (after_dedup ctx job w))) as (new & Htr & Hnew).
      destruct (engine.run_actions _ _ _ _ _ _) as [err w2]. cbn [fst snd] in *.
      rewrite deferred_log_eq. cbn [engine.trace]. rewrite Htr. cbn. rewrite Hd.
      eexists. repeat rewrite <- app_assoc. split; [done|].
      apply Forall_app. split; [done|]. apply Forall_cons. split; [done|].
      apply Forall_app. split; [done|]. apply audit_events_job_events.
Qed.

(** X15. Everything a worker does for a job is done for that job: the
    dedup insert, the fetch and every executor are called under the pool's
    context with the job's relay id, event id and payload (so no executor
    sees a payload another one changed), and only the audit write and the
    cancel that follows use the 3s context. *)
Theorem worker_job_events_are_the_jobs f ctx id job w :
  Forall (job_event ctx job) (since w (engine.worker_job reg f ctx id job w)).
Proof.
  destruct (worker_job_since reg f ctx id job w) as (r0 & r1 & -> & _).
  destruct (process_job_events f ctx job (worker_logger id) (job_received id job w))
    as (new & Htr & Hnew).
  rewrite (since_app _ _ _ Htr). apply Forall_cons. split; [done|].
  apply Forall_app. split; [done|]. by repeat constructor.
Qed.

Lemma worker_job_extends f ctx id job w :
  exists new,
    engine.trace (engine.worker_job reg f ctx id job w) = engine.trace w ++ new /\
    length (engine.acks new) = 1%nat.
Proof.
  rewrite worker_job_eq.
  destruct (process_extends reg f ctx job (worker_logger id) (job_received id job w))
    as (new & Htr & Hacks).
  destruct (job_finished_trace id job
              (fst (engine.process reg f ctx job (worker_logger id) (job_received id job w)))
              (snd (engine.process reg f ctx job (worker_logger id) (job_received id job w))))
    as (r1 & -> & _).
  rewrite Htr. unfold job_received, engine.slog, engine.emit. cbn.
  eexists ([_] ++ new ++ [_; _]). repeat rewrite <- app_assoc. split; [done|].
  rewrite !acks_app, Hacks. done.
Qed.

Lemma jobs_done_acks ctx id (jobs : list (engine.Job * store.Faults)) w :
  exists new,
    engine.trace (jobs_done reg ctx id jobs w) = engine.trace w ++ new /\
    length (engine.acks new) = length jobs.
Proof.
  revert w. induction jobs as [|[job f] jobs IH]; intros w.
  - exists []. cbn. by rewrite app_nil_r.
  - cbn. destruct (worker_job_extends f ctx id job w) as (new1 & Htr1 & Hone).
    destruct (IH (engine.worker_job reg f ctx id job w)) as (new2 & Htr2 & Hrest).
    exists (new1 ++ new2). unfold jobs_done in Htr2. rewrite Htr2, Htr1, <- app_assoc.
    split; [done|]. rewrite acks_app, length_app. lia.
Qed.

Lemma worker_loop_eq ctx id selected w :
  engine.worker_loop reg ctx id selected w =
  (stopped selected,
   match stop_message selected with
   | Some msg =>
       engine.slog (worker_logger id) LevelInfo msg []
         (jobs_done reg ctx id (taken selected) w)
   | None => jobs_done reg ctx id (taken selected) w
   end).
Proof.
  revert w. induction selected as [|[|job f|] rest IH]; intros w; try done.
  cbn. by rewrite IH.
Qed.

(** X16. One worker, given what its [select] yields: it returns exactly
    when the context is done or the queue closed, never because a job
    failed; until then it processes the jobs it receives one by one, in
    order, each to its end; it touches nothing that is delivered after,
    and every job it received gets one acknowledgement. *)
Theorem worker_processes_received_jobs ctx id selected w :
  let r := engine.worker reg ctx id selected w in
  let done_ := jobs_done reg ctx id (taken selected) (worker_started id w) in
  fst r = stopped selected /\
  snd r =
    match stop_message selected with
    | Some msg => engine.slog (worker_logger id) LevelInfo msg [] done_
    | None => done_
    end /\
  length (engine.acks (since w (snd r))) = length (taken selected).
Proof.
  intros r done_. subst r done_. unfold engine.worker.
  change (engine.slog [("worker_id", itoa id)] LevelDebug "worker started" [] w)
    with (worker_started id w).
  rewrite worker_loop_eq. cbn [fst snd]. split; [done|]. split; [done|].
  destruct (jobs_done_acks ctx id (taken selected) (worker_started id w))
    as (new & Htr & Hlen).
  destruct (stop_message selected) as [msg|].
  - erewrite since_app.
    2:{ unfold engine.slog, engine.emit. cbn [engine.trace]. rewrite Htr.
        unfold worker_started, engine.slog, engine.emit. cbn [engine.trace].
        repeat rewrite <- app_assoc. reflexivity. }
    rewrite !acks_app, !length_app, Hlen. cbn. lia.
  - erewrite since_app.
    2:{ rewrite Htr. unfold worker_started, engine.slog, engine.emit. cbn [engine.trace].
        repeat rewrite <- app_assoc. reflexivity. }
    rewrite !acks_app, !length_app, Hlen. cbn. lia.
Qed.

End EngineWorker.

(** ** More on the webhook ingestion handler *)

Lemma length_append (s1 s2 : string) :
  String.length (s1 +:+ s2) = (String.length s1 + String.length s2)%nat.
Proof. induction s1 as [|c s1 IH]; [done|]. simpl. by f_equal. Qed.

Lemma length_doubled (k : nat) (s : string) :
  N.of_nat (String.length (Nat.iter k (fun s => s +:+ s) s)) =
  (2 ^ N.of_nat k * N.of_nat (String.length s))%N.
Proof.
  induction k as [|k IH].
  - change (N.of_nat (String.length s) = 1 * N.of_nat (String.length s))%N. lia.
  - rewrite Nat.iter_succ, length_append, Nat2N.inj_add, IH.
    replace (N.of_nat (S k)) with (N.succ (N.of_nat k)) by lia.
    rewrite N.pow_succ_r'. lia.
Qed.

Lemma webhook_relay (relay : string) (body : api.Reader) (header query : list string) :
  api.chi_URLParam (examples.webhook relay body header query) "relayID" = relay.
Proof.
  unfold api.chi_URLParam, examples.webhook. cbn [api.URLParams].
  by rewrite lookup_singleton.
Qed.

Lemma relay_R_nonempty : examples.relay_R <> "".
Proof. done. Qed.

Lemma oversized_length :
  N.of_nat (String.length examples.oversized) = 1048577%N.
Proof.
  unfold examples.oversized. rewrite length_append, Nat2N.inj_add, length_doubled.
  reflexivity.
Qed.

Lemma limit_bytes_prefix (s : string) (n : N) :
  exists rest, s = api.limit_bytes s n +:+ rest.
Proof.
  revert n. induction s as [|c s IH]; intros n; cbn.
  - by exists "".
  - case_decide; [by eexists|].
    destruct (IH (N.pred n)) as [rest Hrest]. exists rest.
    change (String c (api.limit_bytes s (N.pred n)) +:+ rest)
      with (String c (api.limit_bytes s (N.pred n) +:+ rest)).
    by f_equal.
Qed.

Lemma limit_bytes_length (s : string) (n : N) :
  N.of_nat (String.length (api.limit_bytes s n)) = N.min (N.of_nat (String.length s)) n.
Proof.
  revert n. induction s as [|c s IH]; intros n; cbn; [lia|].
  case_decide; cbn; [lia|]. specialize (IH (N.pred n)). lia.
Qed.

Lemma limit_bytes_all (s : string) (n : N) :
  (N.of_nat (String.length s) <= n)%N -> api.limit_bytes s n = s.
Proof.
  revert n. induction s as [|c s IH]; intros n Hlen; cbn in *; [done|].
  case_decide; [lia|]. rewrite IH; [done|lia].
Qed.

(** Reading the body through the limit fails exactly when the body's own
    reader fails within the first 1048576 bytes. *)
Lemma read_limited_ok (b : api.Reader) :
  (api.ReadAll (api.LimitReader b 1048576)).2 = None <->
  api.failure b = None \/
  (1048576 < N.of_nat (String.length (api.data b)))%N \/
  (N.of_nat (String.length (api.data b)) = 1048576%N /\ api.failure_with_data b = false).
Proof.
  unfold api.ReadAll, api.LimitReader. cbn [snd api.failure].
  destruct (decide (N.of_nat (String.length (api.data b)) < 1048576)%N) as [Hlt|Hge].
  { split; [by left|]. intros [?|[?|[? _]]]; [done|lia|lia]. }
  destruct (decide (N.of_nat (String.length (api.data b)) = 1048576%N /\ (0 < 1048576)%N))
    as [[Heq _]|Hne].
  - destruct (api.failure_with_data b).
    + split; [by left|]. intros [?|[?|[_ ?]]]; [done|lia|done].
    + split; [|done]. intros _. right. right. done.
  - split; [|done]. intros _. right. left.
    destruct (decide (N.of_nat (String.length (api.data b)) = 1048576%N)); [|lia].
    exfalso. apply Hne. split; [done|lia].
Qed.

(** X17. The handler answers 400 exactly when the route carries no relay
    id, 200 exactly when it has a relay id, reading the body gave no error
    and the one event it published was accepted by the producer, and 500
    otherwise.  Reading the body gives no error exactly when the body's
    reader ends without error or fails only after the first 1048576 bytes,
    which is all the handler reads.  It calls [Publish] once, under the
    relay id of the route, unless the relay id is missing or the read
    failed; then it does not call it. *)
Theorem HandleWebhook_responses (producer : api.EventProducer) (random : nat -> Z)
    (now : Z) (r : api.Request) :
  let out := api.HandleWebhook producer random now r in
  let relayID := api.chi_URLParam r "relayID" in
  let read := api.ReadAll (api.LimitReader (api.Body r) 1048576) in
  let len := N.of_nat (String.length (api.data (api.Body r))) in
  (api.StatusCode (api.response out) = 400 <-> relayID = "") /\
  (api.StatusCode (api.response out) = 200 <->
   relayID <> "" /\ read.2 = None /\
   exists ev, api.published out = [(relayID, ev)] /\ producer relayID ev = None) /\
  (api.StatusCode (api.response out) = 200 \/
   api.StatusCode (api.response out) = 400 \/
   api.StatusCode (api.response out) = 500) /\
  (read.2 = None <->
   api.failure (api.Body r) = None \/ (1048576 < len)%N \/
   (len = 1048576%N /\ api.failure_with_data (api.Body r) = false)) /\
  (api.published out = [] <-> relayID = "" \/ read.2 <> None) /\
  (api.published out = [] \/ exists ev, api.published out = [(relayID, ev)]).
Proof.
  intros out relayID read len. subst out relayID read len.
  split_and!.
  - unfold api.HandleWebhook. cbv zeta.
    destruct (decide (api.chi_URLParam r "relayID" = "")) as [Hid|Hid]; [done|].
    destruct (api.ReadAll _) as [body [err|]]; [done|].
    by destruct (producer _ _).
  - unfold api.HandleWebhook. cbv zeta.
    destruct (decide (api.chi_URLParam r "relayID" = "")) as [Hid|Hid].
    { split; [done|]. by intros (? & _). }
    destruct (api.ReadAll _) as [body [err|]]; cbn.
    { split; [done|]. by intros (_ & ? & _). }
    destruct (producer _ _) as [err|] eqn:Hpub; cbn.
    + split; [done|]. intros (_ & _ & ev & [= <-] & Hnone). congruence.
    + split; [|done]. intros _. split; [done|]. split; [done|]. by eexists.
  - unfold api.HandleWebhook. cbv zeta.
    destruct (decide (api.chi_URLParam r "relayID" = "")) as [Hid|Hid]; [by right; left|].
    destruct (api.ReadAll _) as [body [err|]]; [by right; right|].
    destruct (producer _ _); [by right; right|by left].
  - apply read_limited_ok.
  - destruct (HandleWebhook_published_cases producer random now r)
      as [[Hpub Hwhy]|(Hpub & Hrelay & Hread)].
    + done.
    + rewrite Hpub. split; [done|]. intros [?|?]; [done|]. by rewrite Hread in *.
  - destruct (HandleWebhook_published_cases producer random now r)
      as [[Hpub _]|(Hpub & _)]; [by left|right; by eexists].
Qed.

Lemma HandleWebhook_responses_witness :
  (api.StatusCode (api.response
     (api.HandleWebhook examples.accepting (fun _ => 0) 1700000000
        (examples.webhook examples.relay_R (examples.broken_after examples.oversized)
           [] []))) = 200 /\
   exists ev,
     api.published
       (api.HandleWebhook examples.accepting (fun _ => 0) 1700000000
          (examples.webhook examples.relay_R (examples.broken_after examples.oversized)
             [] [])) = [(examples.relay_R, ev)]) /\
  (api.StatusCode (api.response
     (api.HandleWebhook examples.accepting (fun _ => 0) 1700000000
        (examples.webhook examples.relay_R (examples.broken_after examples.payload_x1)
           ["evt-1"] []))) <> 200 /\
   api.published
     (api.HandleWebhook examples.accepting (fun _ => 0) 1700000000
        (examples.webhook examples.relay_R (examples.broken_after examples.payload_x1)
           ["evt-1"] [])) = []).
Proof.
  split.
  - generalize oversized_length. generalize examples.oversized. intros big Hbig.
    destruct (HandleWebhook_responses examples.accepting (fun _ => 0) 1700000000
                (examples.webhook examples.relay_R (examples.broken_after big) [] []))
      as (_ & H200 & _ & Hread & Hnone & Hone).
    assert (Hok : (api.ReadAll (api.LimitReader
                     (examples.broken_after big) 1048576)).2 = None).
    { apply Hread. right. left.
      change (1048576 < N.of_nat (String.length big))%N. rewrite Hbig. lia. }
    rewrite webhook_relay in H200, Hnone, Hone.
    destruct Hone as [Hempty|[ev Hev]].
    { apply Hnone in Hempty as [Hrelay|Hfail].
      - destruct (relay_R_nonempty Hrelay).
      - destruct (Hfail Hok). }
    split; [|exists ev; exact Hev].
    apply H200. split; [exact relay_R_nonempty|]. split; [exact Hok|].
    exists ev. split; [exact Hev|reflexivity].
  - destruct (HandleWebhook_responses examples.accepting (fun _ => 0) 1700000000
                (examples.webhook examples.relay_R
                   (examples.broken_after examples.payload_x1) ["evt-1"] []))
      as (_ & H200 & _ & Hread & Hnone & _).
    assert (Hfail : (api.ReadAll (api.LimitReader
                       (examples.broken_after examples.payload_x1) 1048576)).2 <> None).
    { intros Hok. apply Hread in Hok as [Hok|[Hok|[Hok _]]]; by vm_compute in Hok. }
    split; [|apply Hnone; by right].
    intros (_ & Hok & _)%H200. by apply Hfail in Hok.
Defined.

(** X18. A request with a relay id whose body is read without error gets
    one event published, and the payload of any event the handler
    publishes is the request body cut after 1048576 bytes: a prefix of the
    body, of the body's length or 1048576 bytes, whichever is less, hence
    the whole body when that is not longer; the event is published under,
    and carries, the relay id of the route, and carries the handler's
    clock. *)
Theorem HandleWebhook_payload_bounded (producer : api.EventProducer) (random : nat -> Z)
    (now : Z) (r : api.Request) :
  let out := api.HandleWebhook producer random now r in
  let relayID := api.chi_URLParam r "relayID" in
  let body := api.data (api.Body r) in
  (relayID <> "" ->
   (api.ReadAll (api.LimitReader (api.Body r) 1048576)).2 = None ->
   exists ev, api.published out = [(relayID, ev)]) /\
  Forall (fun p : string * api.ExecutionEvent =>
            p.1 = relayID /\
            api.RelayID p.2 = relayID /\
            api.ReceivedAt p.2 = now /\
            (exists rest, body = api.Payload p.2 +:+ rest) /\
            N.of_nat (String.length (api.Payload p.2)) =
              N.min (N.of_nat (String.length body)) 1048576 /\
            ((N.of_nat (String.length body) <= 1048576)%N -> api.Payload p.2 = body))
         (api.published out).
Proof.
  intros out relayID body. subst out relayID body.
  split.
  { intros Hrelay Hread. eexists. by apply HandleWebhook_publishes. }
  destruct (HandleWebhook_published_cases producer random now r) as [[-> _]|[-> _]];
    [constructor|].
  constructor; [|constructor].
  cbn [fst snd api.RelayID api.ReceivedAt api.Payload].
  split; [done|]. split; [done|]. split; [done|].
  split; [apply limit_bytes_prefix|].
  split; [apply limit_bytes_length|apply limit_bytes_all].
Qed.

Lemma HandleWebhook_payload_bounded_witness :
  (exists ev,
     api.published
       (api.HandleWebhook examples.accepting (fun _ => 0) 1700000000
          (examples.webhook examples.relay_R (examples.whole examples.payload_x1)
             ["evt-1"] [])) = [(examples.relay_R, ev)] /\
     api.Payload ev = examples.payload_x1) /\
  (exists ev,
     api.published
       (api.HandleWebhook examples.accepting (fun _ => 0) 1700000000
          (examples.webhook examples.relay_R (examples.broken_after examples.oversized)
             ["evt-2"] [])) = [(examples.relay_R, ev)] /\
     N.of_nat (String.length (api.Payload ev)) = 1048576%N /\
     exists rest, examples.oversized = api.Payload ev +:+ rest).
Proof.
  split.
  - destruct (HandleWebhook_payload_bounded examples.accepting (fun _ => 0) 1700000000
                (examples.webhook examples.relay_R (examples.whole examples.payload_x1)
                   ["evt-1"] [])) as [Hpub Hall].
    destruct Hpub as [ev Hev]; [by vm_compute|by vm_compute|].
    rewrite Hev in Hall. apply Forall_singleton in Hall as (_ & _ & _ & _ & _ & Hwhole).
    exists ev. split; [exact Hev|]. apply Hwhole. by vm_compute.
  - generalize oversized_length. generalize examples.oversized. intros big Hbig.
    destruct (HandleWebhook_payload_bounded examples.accepting (fun _ => 0) 1700000000
                (examples.webhook examples.relay_R (examples.broken_after big) ["evt-2"] []))
      as [Hpub Hall].
    rewrite webhook_relay in Hpub, Hall.
    destruct Hpub as [ev Hev]; [exact relay_R_nonempty| |].
    { apply read_limited_ok. right. left.
      change (1048576 < N.of_nat (String.length big))%N. rewrite Hbig. lia. }
    rewrite Hev in Hall. apply Forall_singleton in Hall as (_ & _ & _ & Hpre & Hlen & _).
    cbn in Hpre, Hlen.
    exists ev. split; [exact Hev|]. split; [|exact Hpre].
    rewrite Hlen, Hbig. reflexivity.
Defined.
